(** * LinkedIn post generator: text post-processing and model fallback

    A shallow embedding of the two service classes of the backend,

      - [backend/services/groq_service.py]     (class [GroqService])
      - [backend/services/linkedin_service.py] (class [LinkedInService])

    together with the Python string primitives they rely on.

    - Text is a list of characters.  A character is an [ascii], read as a
      Unicode code point below 256: on that range [isspace] and [lower_char]
      are Python's [str.isspace] and [str.lower].
    - Python integers are [Z]; a negative [max_chars] slices from the end, as
      in Python.
    - The attribute [self.model_name] is threaded through the methods as an
      explicit state, together with the log of the requests sent to the
      generation provider.  The provider itself is a parameter: a function
      from the number of requests it has seen and the request to its answer,
      so that a retry may be answered differently from the first attempt.
    - An exception is kept as its message [str(e)], which is all the
      handlers look at.
    - Of the log output only the warning of [_clean_response] is kept, as a
      boolean next to the cleaned text.
    - [random.choice] in [_build_prompt] takes the drawn index as an
      argument. *)

From Stdlib Require Import List Ascii String ZArith NArith Bool Lia.
From Stdlib Require Import DecimalString.
Import ListNotations.

Local Open Scope Z_scope.

(** ** Python string primitives *)

Module PyStr.

Definition text := list ascii.

(** A source literal. *)
Definition str (s : string) : text := list_ascii_of_string s.

Definition nl : ascii := "010"%char.

(** [len(s)] *)
Definition len (s : text) : Z := Z.of_nat (List.length s).

(** [s[:n]]: a negative [n] counts from the end of [s]. *)
Definition slice_to (s : text) (n : Z) : text :=
  if n <? 0 then firstn (Z.to_nat (len s + n)) s
  else firstn (Z.to_nat n) s.

(** [s.rfind(c)] for a one-character [c]: the highest index at which [c]
    occurs, [-1] when it does not occur. *)
Fixpoint rfind_from (c : ascii) (s : text) (i acc : Z) : Z :=
  match s with
  | [] => acc
  | x :: s' => rfind_from c s' (i + 1) (if Ascii.eqb x c then i else acc)
  end.

Definition rfind (c : ascii) (s : text) : Z := rfind_from c s 0 (-1).

(** [s.split(sep)] for a one-character [sep]; never the empty list. *)
Fixpoint split_on (sep : ascii) (s : text) : list text :=
  match s with
  | [] => [[]]
  | c :: s' =>
      if Ascii.eqb c sep then [] :: split_on sep s'
      else match split_on sep s' with
           | [] => [[c]]
           | l :: ls => (c :: l) :: ls
           end
  end.

(** [sep.join(ls)] *)
Fixpoint join (sep : text) (ls : list text) : text :=
  match ls with
  | [] => []
  | l :: ls' =>
      match ls' with
      | [] => l
      | _ :: _ => l ++ sep ++ join sep ls'
      end
  end.

(** [s.startswith(p)] *)
Fixpoint startswith (p s : text) : bool :=
  match p, s with
  | [], _ => true
  | _ :: _, [] => false
  | a :: p', b :: s' => Ascii.eqb a b && startswith p' s'
  end.

(** [needle in hay] *)
Fixpoint contains (needle hay : text) : bool :=
  startswith needle hay ||
  match hay with
  | [] => false
  | _ :: hay' => contains needle hay'
  end.

(** [c.isspace()] on code points below 256. *)
Definition isspace (c : ascii) : bool :=
  let n := N_of_ascii c in
  ((9 <=? n) && (n <=? 13) || (28 <=? n) && (n <=? 32)
   || (n =? 133) || (n =? 160))%N.

(** [c.lower()] on code points below 256. *)
Definition lower_char (c : ascii) : ascii :=
  let n := N_of_ascii c in
  if ((65 <=? n) && (n <=? 90)
      || (192 <=? n) && (n <=? 222) && negb (n =? 215))%N
  then ascii_of_N (n + 32) else c.

(** [s.lower()] *)
Definition lower (s : text) : text := map lower_char s.

Fixpoint lstrip (s : text) : text :=
  match s with
  | [] => []
  | c :: s' => if isspace c then lstrip s' else s
  end.

Definition rstrip (s : text) : text := rev (lstrip (rev s)).

(** [s.strip()] *)
Definition strip (s : text) : text := rstrip (lstrip s).

(** [s.split()]: the maximal runs of non-whitespace characters; [cur] is
    the run being read, most recent character first. *)
Fixpoint split_ws_from (cur s : text) : list text :=
  match s with
  | [] => match cur with [] => [] | _ :: _ => [rev cur] end
  | c :: s' =>
      if isspace c then
        match cur with
        | [] => split_ws_from [] s'
        | _ :: _ => rev cur :: split_ws_from [] s'
        end
      else split_ws_from (c :: cur) s'
  end.

Definition split_ws (s : text) : list text := split_ws_from [] s.

(** [max(a, b, c)] *)
Definition max3 (a b c : Z) : Z := Z.max (Z.max a b) c.

End PyStr.

Import PyStr.

(** ** [GroqService]: length enforcement and response cleaning *)

Module Groq.

Definition continuation_note : text :=
  str "

[Content continued in comments...]".

(** The test of the loop over [lines]: an incomplete hashtag. *)
Definition incomplete_hashtag (line : text) : bool :=
  startswith (str "#") line && (len line <? 3).

(** [GroqService._enforce_character_limit(content, max_chars)] *)
Definition _enforce_character_limit (content : text) (max_chars : Z) : text :=
  if len content <=? max_chars then content
  else
    let truncated := slice_to content max_chars in
    let last_period := rfind "."%char truncated in
    let last_question := rfind "?"%char truncated in
    let last_exclamation := rfind "!"%char truncated in
    let best_ending := max3 last_period last_question last_exclamation in
    let truncated :=
      if best_ending >? max_chars - 200
      then slice_to content (best_ending + 1)
      else truncated in
    if len content >? max_chars then
      let lines := split_on nl truncated in
      let cleaned_lines :=
        filter (fun line => negb (incomplete_hashtag line)) lines in
      let truncated := join [nl] cleaned_lines in
      if len truncated <? max_chars - 50
      then truncated ++ continuation_note
      else truncated
    else truncated.

(** The default of [max_chars]. *)
Definition default_max_chars : Z := 2950.

(** *** [_clean_response] *)

Definition instruction_phrases : list text :=
  [ str "Here's a LinkedIn post about";
    str "Here's a professional LinkedIn post";
    str "LinkedIn post:";
    str "Content Requirements:";
    str "REQUIREMENTS:";
    str "Instructions:";
    str "Write the LinkedIn post:";
    str "Generate the post content now:";
    str "Post content:";
    str "CRITICAL:";
    str "Length:";
    str "Tone:";
    str "Focus:";
    str "Target audience:";
    str "End with:";
    str "Include 3-4";
    str "- Write";
    str "- Use";
    str "- Include";
    str "- Provide";
    str "- Sound like" ].

(** The inner loop over [instruction_phrases]: the value of [should_skip]
    for a line. *)
Definition should_skip (line : text) : bool :=
  existsb (fun phrase => contains (lower phrase) (lower line))
          instruction_phrases.

(** [not s] for a string or a list. *)
Definition is_empty {A} (l : list A) : bool :=
  match l with [] => true | _ :: _ => false end.

(** [line.startswith('-') and len(line.split()) < 8] *)
Definition prompt_formatting (line : text) : bool :=
  startswith (str "-") line && (Z.of_nat (List.length (split_ws line)) <? 8).

(** The loop over [lines]; [cleaned_lines] is the list built so far. *)
Fixpoint clean_loop (lines cleaned_lines : list text) : list text :=
  match lines with
  | [] => cleaned_lines
  | line :: rest =>
      let line := strip line in
      if should_skip line then clean_loop rest cleaned_lines
      else if is_empty line && is_empty cleaned_lines
      then clean_loop rest cleaned_lines
      else if prompt_formatting line then clean_loop rest cleaned_lines
      else clean_loop rest (cleaned_lines ++ [line])
  end.

(** [GroqService._clean_response(content)]: the cleaned text, and whether
    the warning "Content seems too short after cleaning" was logged. *)
Definition _clean_response (content : text) : text * bool :=
  let lines := split_on nl content in
  let cleaned_lines := clean_loop lines [] in
  let final_content := strip (join [nl] cleaned_lines) in
  (final_content, len final_content <? 50).

(** *** [_build_prompt] *)

(** [models/schemas.py] *)
Inductive PostTone :=
  PROFESSIONAL | CASUAL | INSPIRATIONAL | EDUCATIONAL | PROMOTIONAL.

Inductive PostLength := SHORT | MEDIUM | LONG.

(** The dict [topic_expertise], in insertion order. *)
Definition topic_expertise : list (text * text) :=
  [ (str "ai agent",
     str "Discuss different types of AI agents (reactive, deliberative, learning, collaborative), specific platforms like OpenAI GPTs, Microsoft Copilot, real business applications, implementation strategies, and measurable ROI");
    (str "artificial intelligence",
     str "Cover current AI trends, specific technologies (GPT, Claude, Midjourney), real company case studies, practical applications across industries, ethical considerations, and future predictions");
    (str "machine learning",
     str "Explain ML types (supervised, unsupervised, reinforcement), specific tools (TensorFlow, PyTorch, scikit-learn), real-world applications, data requirements, career paths, and business impact");
    (str "programming",
     str "Discuss modern frameworks, specific languages and their use cases, development best practices, emerging trends (AI-assisted coding), career advice, and productivity tools");
    (str "data science",
     str "Cover the full data science pipeline, specific tools and platforms, real project examples, business impact measurement, career paths, and industry applications") ].

(** The loop over [topic_expertise.items()] with its [break]. *)
Fixpoint select_guidance (table : list (text * text)) (topic_lower : text)
                         (specific_guidance : text) : text :=
  match table with
  | [] => specific_guidance
  | (key, guidance) :: rest =>
      if contains key topic_lower then guidance
      else select_guidance rest topic_lower specific_guidance
  end.

Definition length_specs (length : PostLength) : text :=
  match length with
  | SHORT => str "1-2 concise paragraphs (aim for 400-800 characters total)"
  | MEDIUM => str "2-3 focused paragraphs (aim for 1500-2500 characters total)"
  | LONG => str "3-4 detailed paragraphs (aim for 2500-2800 characters total)"
  end.

Definition tone_specs (tone : PostTone) : text :=
  match tone with
  | PROFESSIONAL => str "authoritative and expert-level"
  | CASUAL => str "conversational but knowledgeable"
  | INSPIRATIONAL => str "motivating and forward-thinking"
  | EDUCATIONAL => str "informative and teaching-focused"
  | PROMOTIONAL => str "persuasive and benefit-focused"
  end.

Definition cta_options (topic : text) : list text :=
  [ str "What's your experience with " ++ topic ++ str "?";
    str "How are you implementing " ++ topic ++ str " in your work?";
    str "What challenges have you faced with " ++ topic ++ str "?";
    str "Which " ++ topic ++ str " tools have you found most effective?" ].

(** The truth value of an [Optional[str]]: [None] and the empty string are
    false. *)
Definition truthy (o : option text) : bool :=
  match o with Some (_ :: _) => true | _ => false end.

Definition text_of (o : option text) : text :=
  match o with Some t => t | None => [] end.

(** [GroqService._build_prompt]; [rnd] is the index drawn by
    [random.choice]. *)
Definition _build_prompt (topic : text) (tone : PostTone)
    (length : PostLength) (hashtags : bool)
    (target_audience call_to_action : option text) (rnd : nat) : text :=
  let topic_lower := lower topic in
  let specific_guidance :=
    select_guidance topic_expertise topic_lower
      (str "Provide detailed, expert-level insights with specific examples, tools, companies, and actionable advice") in
  let prompt :=
    str "You are a recognized expert writing a LinkedIn post about "
    ++ ["034"%char] ++ topic ++ ["034"%char] ++ str ".

CRITICAL REQUIREMENTS:
- MAXIMUM 2900 characters total (LinkedIn limit is 3000, stay under for safety)
- Length: " ++ length_specs length ++ str "
- Tone: " ++ tone_specs tone ++ str "
- Focus: " ++ specific_guidance ++ str "
- Include specific company names, tools, statistics, or real examples
- Provide actionable insights professionals can immediately use
- Use professional LinkedIn formatting with line breaks
- Sound like a subject matter expert who has deep hands-on experience

IMPORTANT: Keep the post concise and within LinkedIn's character limit. Quality over quantity." in
  let prompt :=
    if truthy target_audience
    then prompt ++ str "
- Target audience: " ++ text_of target_audience
    else prompt in
  let prompt :=
    if truthy call_to_action
    then prompt ++ str "
- End with: " ++ text_of call_to_action
    else prompt ++ str "
- End with this question: "
           ++ nth (rnd mod 4)%nat (cta_options topic) [] in
  let prompt :=
    if hashtags
    then prompt ++ str "
- Include 3-4 specific hashtags related to " ++ topic
           ++ str " (keep hashtags short)"
    else prompt in
  prompt ++ str "

Write a compelling LinkedIn post that stays under 2900 characters:".

(** *** The service object and the generation provider *)

(** The dict [self.available_models], in insertion order. *)
Definition available_models : list (text * text) :=
  [ (str "fast", str "llama-3.1-8b-instant");
    (str "balanced", str "gemma2-9b-it");
    (str "quality", str "llama-3.3-70b-versatile");
    (str "compound", str "compound-beta") ].

Fixpoint text_eqb (a b : text) : bool :=
  match a, b with
  | [], [] => true
  | x :: a', y :: b' => Ascii.eqb x y && text_eqb a' b'
  | _, _ => false
  end.

(** [d.get(key)] on a dict kept as an association list. *)
Fixpoint dict_get (d : list (text * text)) (key : text) : option text :=
  match d with
  | [] => None
  | (k, v) :: rest => if text_eqb k key then Some v else dict_get rest key
  end.

(** [key in d] *)
Definition in_keys (d : list (text * text)) (key : text) : bool :=
  existsb (fun kv => text_eqb (fst kv) key) d.

(** [v in d.values()] *)
Definition in_values (d : list (text * text)) (v : text) : bool :=
  existsb (fun kv => text_eqb (snd kv) v) d.

(** [self.available_models[key]] for a key of the catalog. *)
Definition model_of_key (key : text) : text :=
  match dict_get available_models key with Some v => v | None => [] end.

(** The keyword arguments of [client.chat.completions.create]. *)
Record completion_request := {
  req_system : text;
  req_user : text;
  req_model : text;
  req_max_tokens : Z;
  req_temperature : text;
  req_top_p : option text
}.

(** What the provider answers: a response with the texts of its choices
    (none for a missing or empty response), or an exception with its
    message. *)
Inductive api_result :=
| Response (choices : list text)
| ApiException (msg : text).

(** A call either returns a value or raises an exception, of which the
    message [str(e)] is kept. *)
Inductive outcome (A : Type) :=
| Return (a : A)
| Raise (msg : text).

Arguments Return {A} a.
Arguments Raise {A} msg.

(** The service object: [self.model_name], and the requests sent to the
    provider so far, oldest first. *)
Record service := {
  model_name : text;
  api_log : list completion_request
}.

Definition set_model_name (m : text) (self : service) : service :=
  {| model_name := m; api_log := api_log self |}.

(** [GroqService.__init__(api_key, model_name)] *)
Definition __init__ (model_name_arg : option text) : service :=
  let m :=
    if truthy model_name_arg
       && in_values available_models (text_of model_name_arg)
    then text_of model_name_arg
    else if truthy model_name_arg
            && in_keys available_models (text_of model_name_arg)
    then model_of_key (text_of model_name_arg)
    else model_of_key (str "quality") in
  {| model_name := m; api_log := [] |}.

(** [GroqService.switch_model(model_key)] *)
Definition switch_model (model_key : text) (self : service) : service :=
  if in_keys available_models model_key
  then set_model_name (model_of_key model_key) self
  else self.

Definition system_message : text :=
  str "You are an expert LinkedIn content creator who writes engaging, professional posts that drive meaningful conversations and engagement. Always keep posts under 2900 characters for LinkedIn compatibility.".

Definition api_error_prefix : text := str "Groq API error: ".

(** The warning sign at the head of the rate-limit notice: two code points,
    U+26A0 and U+FE0F, both beyond the range of [ascii].  Each is kept as one
    character, so that the length of the notice is Python's; the two
    characters taken, like the code points they stand for, are not
    whitespace, are left alone by [lower] and occur in none of the patterns
    the code looks for. *)
Definition warning_sign : text := ["166"%char; "175"%char].

(** [f"... {topic} ... {self.model_name} ..."], the text returned on a
    rate limit. *)
Definition rate_limit_notice (topic model : text) : text :=
  (warning_sign ++ str " Rate limit reached for Groq API.
Please wait a moment before generating more content.

Topic requested: ") ++ topic ++ str "

Current model: " ++ model ++ str "
Try switching to a faster model like 'fast' for higher rate limits.

Visit: https://console.groq.com/docs/rate-limits for more info.".

(** ["model" in str(e).lower() and ("decommissioned" in ... or
    "deprecated" in ...)] *)
Definition is_model_error (e : text) : bool :=
  contains (str "model") (lower e)
  && (contains (str "decommissioned") (lower e)
      || contains (str "deprecated") (lower e)).

(** ["rate" in str(e).lower() or "quota" in str(e).lower() or
    "429" in str(e)] *)
Definition is_rate_limit (e : text) : bool :=
  contains (str "rate") (lower e)
  || contains (str "quota") (lower e)
  || contains (str "429") e.

Section Provider.

(** The generation provider: its answer to a request, given the number
    of requests it has received before. *)
Variable complete : nat -> completion_request -> api_result.

(** [GroqService._generate_with_groq(prompt)] *)
Definition _generate_with_groq (prompt : text) (self : service)
  : outcome text * service :=
  let request :=
    if text_eqb (model_name self) (str "compound-beta")
    then {| req_system := system_message; req_user := prompt;
            req_model := model_name self; req_max_tokens := 800;
            req_temperature := str "0.7"; req_top_p := None |}
    else {| req_system := system_message; req_user := prompt;
            req_model := model_name self; req_max_tokens := 800;
            req_temperature := str "0.7";
            req_top_p := Some (str "0.9") |} in
  let self' :=
    {| model_name := model_name self;
       api_log := api_log self ++ [request] |} in
  match complete (List.length (api_log self)) request with
  | Response (content :: _) =>
      let raw_content := strip content in
      let cleaned_content := fst (_clean_response raw_content) in
      (Return cleaned_content, self')
  | Response [] =>
      (Raise (api_error_prefix ++ str "Empty response from Groq API"),
       self')
  | ApiException msg => (Raise (api_error_prefix ++ msg), self')
  end.

(** The end of the outer [except] block: the rate-limit notice or
    [raise e]. *)
Definition handle_rate_limit (topic e : text) (self : service)
  : outcome text * service :=
  if is_rate_limit e
  then (Return (rate_limit_notice topic (model_name self)), self)
  else (Raise e, self).

(** [GroqService.generate_post_content] *)
Definition generate_post_content (topic : text) (tone : PostTone)
    (length : PostLength) (hashtags : bool)
    (target_audience call_to_action : option text) (rnd : nat)
    (self : service) : outcome text * service :=
  let prompt :=
    _build_prompt topic tone length hashtags target_audience
                  call_to_action rnd in
  match _generate_with_groq prompt self with
  | (Return content, self) =>
      (Return (_enforce_character_limit content default_max_chars), self)
  | (Raise e, self) =>
      if is_model_error e then
        let original_model := model_name self in
        let self := set_model_name (model_of_key (str "fast")) self in
        match _generate_with_groq prompt self with
        | (Return content, self) =>
            (Return (_enforce_character_limit content default_max_chars),
             self)
        | (Raise fallback_error, self) =>
            let self := set_model_name original_model self in
            handle_rate_limit topic e self
        end
      else handle_rate_limit topic e self
  end.

(** A call made on the service object from outside. *)
Inductive call :=
| SwitchModel (model_key : text)
| GeneratePostContent (topic : text) (tone : PostTone)
    (length : PostLength) (hashtags : bool)
    (target_audience call_to_action : option text) (rnd : nat).

Definition perform (c : call) (self : service) : service :=
  match c with
  | SwitchModel model_key => switch_model model_key self
  | GeneratePostContent topic tone length hashtags ta cta rnd =>
      snd (generate_post_content topic tone length hashtags ta cta rnd
                                 self)
  end.

(** The service object after a sequence of calls. *)
Definition perform_all (cs : list call) (self : service) : service :=
  fold_left (fun s c => perform c s) cs self.

End Provider.

End Groq.

(** ** [LinkedInService]: the publish layer *)

Module LinkedIn.

(** The fields of [post_data] that depend on the arguments. *)
Record post_data := {
  author : text;
  share_commentary_text : text
}.

(** The safety check at the head of [create_post]: the value of [content]
    after it. *)
Definition checked_content (content : text) : text :=
  if len content >? 3000 then
    let truncated := slice_to content 2950 in
    let last_period := rfind "."%char truncated in
    let last_question := rfind "?"%char truncated in
    let last_exclamation := rfind "!"%char truncated in
    let best_ending := max3 last_period last_question last_exclamation in
    if best_ending >? 2800
    then slice_to content (best_ending + 1)
    else truncated
  else content.

(** [LinkedInService.create_post(content, person_id)], up to the request
    it sends. *)
Definition create_post (content person_id : text) : post_data :=
  let content := checked_content content in
  let author_urn :=
    if negb (startswith (str "urn:li:person:") person_id)
    then str "urn:li:person:" ++ person_id
    else person_id in
  {| author := author_urn; share_commentary_text := content |}.

End LinkedIn.

Import Groq LinkedIn.

(** ** Vocabulary of the statements *)

(** The last line of a text, as [text.split('\n')[-1]]. *)
Definition final_line (s : text) : text := last (split_on nl s) [].

(** The lines [_enforce_character_limit] keeps after a cut. *)
Definition cleaned (cut : text) : text :=
  join [nl] (filter (fun line => negb (incomplete_hashtag line))
                    (split_on nl cut)).

(** The index both truncations look for: the rightmost sentence end. *)
Definition best_ending (truncated : text) : Z :=
  max3 (rfind "."%char truncated) (rfind "?"%char truncated)
       (rfind "!"%char truncated).

(** The cut of the enforcer, before lines are dropped. *)
Definition enforce_cut (t : text) (max_chars : Z) : text :=
  if best_ending (slice_to t max_chars) >? max_chars - 200
  then slice_to t (best_ending (slice_to t max_chars) + 1)
  else slice_to t max_chars.

(** [a] occurs in [b] as a run of consecutive characters. *)
Definition infix (a b : text) : Prop := exists pre post, b = pre ++ a ++ post.

(** One of the three tests of the loop drops the line whatever was kept
    before it. *)
Definition dropped (line : text) : bool :=
  should_skip (strip line) || is_empty (strip line)
  || prompt_formatting (strip line).

Definition fast_model : text := str "llama-3.1-8b-instant".

(** The prompt of a run. *)
Definition prompt_of (topic : text) (tone : PostTone) (length : PostLength)
    (hashtags : bool) (target_audience call_to_action : option text)
    (rnd : nat) : text :=
  _build_prompt topic tone length hashtags target_audience call_to_action
                rnd.

(** The service object as the retry finds it. *)
Definition retry_state (self1 : service) : service :=
  set_model_name (model_of_key (str "fast")) self1.

(** [self.model_name in self.available_models.values()] *)
Definition valid_model (self : service) : bool :=
  in_values available_models (model_name self).

(** *** Providers and texts used as examples *)

(** The first request fails with [first]; every later one is answered with
    [later]. *)
Definition answers (first later : api_result)
  : nat -> completion_request -> api_result :=
  fun n _ => match n with O => first | S _ => later end.

Definition decommissioned_message : text :=
  str "The model `llama-3.1-70b-versatile` has been decommissioned and is no longer supported.".

Definition migrate_message : text :=
  str "The model `llama3-70b-8192` has been decommissioned. Please migrate to a supported model.".

Definition unavailable_message : text := str "503 service unavailable".

Definition decommissioned : api_result := ApiException decommissioned_message.

Definition decommissioned_migrate : api_result := ApiException migrate_message.

Definition too_many_requests : api_result :=
  ApiException (str "429 too many requests").

Definition service_unavailable : api_result :=
  ApiException unavailable_message.

Definition fresh_post : api_result :=
  Response [str "  Remote teams thrive on written updates.  "].

(** A text of 3051 characters whose only sentence end is at index 2850. *)
Definition sentence_end_at_2850 : text :=
  repeat "a"%char 2850 ++ str "." ++ repeat "a"%char 200.

(** A text of 3104 characters whose only sentence end is at index 2900. *)
Definition sentence_end_at_2900 : text :=
  repeat "a"%char 2900 ++ str "! #b" ++ repeat "a"%char 200.

(** The arguments of the example runs: the request of the end-to-end
    scenario, on a service built with the default model. *)
Definition example_topic : text := str "remote work tips".

Definition example_run (complete : nat -> completion_request -> api_result)
  : outcome text * service :=
  generate_post_content complete example_topic CASUAL SHORT true None None
                        0%nat (__init__ None).

Definition example_prompt : text :=
  prompt_of example_topic CASUAL SHORT true None None 0%nat.

(** ** Further methods of [GroqService] *)

(** [str(n)] for an int, as an f-string prints it. *)
Definition str_of_int (n : Z) : text :=
  str (NilEmpty.string_of_int (Z.to_int n)).

(** [l[:n]] for a list: a negative [n] counts from the end. *)
Definition list_slice_to {A} (l : list A) (n : Z) : list A :=
  if n <? 0 then firstn (Z.to_nat (Z.of_nat (List.length l) + n)) l
  else firstn (Z.to_nat n) l.

Section MoreProvider.

Variable complete : nat -> completion_request -> api_result.

(** [GroqService.enhance_content(content)] *)
Definition enhance_content (content : text) (self : service)
  : outcome text * service :=
  let prompt :=
    str "Improve this LinkedIn post while keeping it under 2900 characters:

" ++ content ++ str "

Make it more engaging, professional, and add a compelling call to action.
IMPORTANT: Must stay under 2900 characters for LinkedIn.

Enhanced post:" in
  match _generate_with_groq complete prompt self with
  | (Return enhanced, self) =>
      (Return (_enforce_character_limit enhanced default_max_chars), self)
  | (Raise e, self) => (Raise e, self)
  end.

(** [GroqService.generate_hashtags(content, count)] *)
Definition generate_hashtags (content : text) (count : Z) (self : service)
  : outcome (list text) * service :=
  let prompt :=
    str "Generate " ++ str_of_int count
    ++ str " relevant LinkedIn hashtags for this post:

" ++ content ++ str "

Return only hashtags separated by spaces, starting with #:" in
  match _generate_with_groq complete prompt self with
  | (Return response, self) =>
      let hashtags := split_ws (strip response) in
      (Return (list_slice_to (filter (startswith (str "#")) hashtags) count),
       self)
  | (Raise e, self) => (Raise e, self)
  end.

(** [GroqService.generate_post_content] called with [topic=None], as the
    endpoints of [main.py] may do: [_build_prompt] fails on [topic.lower()]
    inside the [try], and the handler, whose two patterns the message does
    not match, raises the error again. *)
Definition none_topic_error : text :=
  str "'NoneType' object has no attribute 'lower'".

Definition generate_post_content_opt (topic : option text) (tone : PostTone)
    (length : PostLength) (hashtags : bool)
    (target_audience call_to_action : option text) (rnd : nat)
    (self : service) : outcome text * service :=
  match topic with
  | None => (Raise none_topic_error, self)
  | Some topic =>
      generate_post_content complete topic tone length hashtags
                            target_audience call_to_action rnd self
  end.

End MoreProvider.

(** ** Further methods of [LinkedInService] *)

Module LinkedInHttp.

(** What the HTTP client gives back: a response with its status, its body
    as text and the ["id"] of its body as JSON, or an exception of the
    client. *)
Inductive http_answer :=
| HttpResponse (status : Z) (body : text) (json_id : option text)
| HttpFailure (msg : text).

(** The fields of [post_data] in [create_article_post], and whether the
    warning about the length was logged. *)
Record article_data := {
  article_author : text;
  article_commentary_text : text;
  article_description : text;
  article_title : text;
  article_warned : bool
}.

(** [LinkedInService.create_article_post(title, content, person_id)], up to
    the request it sends. *)
Definition create_article_post (title content person_id : text)
  : article_data :=
  let combined_content := title ++ [nl; nl] ++ content in
  {| article_author := str "urn:li:person:" ++ person_id;
     article_commentary_text := combined_content;
     article_description := content;
     article_title := title;
     article_warned := len combined_content >? 3000 |}.

Section Http.

(** [session.post(f"{self.base_url}/ugcPosts", ...)] for a post. *)
Variable post_ugc : post_data -> http_answer.

(** [LinkedInService.create_post(content, person_id)] with the request sent
    and the response handled; the returned dict is kept as its ["id"].  The
    body of a response with status 200 or 201 is taken to be a JSON object,
    as the API sends it, so that [response.json()] returns. *)
Definition create_post_result (content person_id : text)
  : outcome (option text) :=
  let data := create_post content person_id in
  let content := share_commentary_text data in
  match post_ugc data with
  | HttpFailure msg => Raise msg
  | HttpResponse status error_text json_id =>
      if negb ((status =? 200) || (status =? 201)) then
        if contains (str "text length") error_text
           && contains (str "exceeded") error_text
        then Raise (str "LinkedIn post creation failed: Content too long ("
                    ++ str_of_int (len content)
                    ++ str " characters). LinkedIn limit is 3000 characters.")
        else Raise (str "LinkedIn post creation failed: "
                    ++ str_of_int status ++ str " - " ++ error_text)
      else Return json_id
  end.

(** [session.delete(f"{self.base_url}/ugcPosts/{post_id}", ...)] *)
Variable delete_ugc : text -> http_answer.

(** [LinkedInService.delete_post(post_id)] *)
Definition delete_post (post_id : text) : outcome bool :=
  match delete_ugc post_id with
  | HttpFailure msg => Raise msg
  | HttpResponse status error_text _ =>
      if status =? 204 then Return true
      else Raise (str "LinkedIn delete post failed: "
                  ++ str_of_int status ++ str " - " ++ error_text)
  end.

End Http.

End LinkedInHttp.

(** ** The endpoints of [backend/main.py] *)

Module Main.

(** [models/schemas.py] *)
Record PostRequest := {
  topic : option text;
  content : option text;
  tone : PostTone;
  length : PostLength;
  include_hashtags : bool;
  schedule_time : option text;
  target_audience : option text;
  call_to_action : option text
}.

Record PostResponse := {
  success : bool;
  post_id : option text;
  response_content : text;
  message : text
}.

(** The dict [generate_content] returns. *)
Record generated := {
  generated_content : text;
  generated_topic : option text;
  generated_status : text
}.

(** An endpoint returns its value or raises [HTTPException]. *)
Inductive http_result (A : Type) :=
| Ok (a : A)
| HTTPException (status_code : Z) (detail : text).

Arguments Ok {A} a.
Arguments HTTPException {A} status_code detail.

Section Endpoints.

Variable complete : nat -> completion_request -> api_result.
Variable post_ugc : post_data -> LinkedInHttp.http_answer.

(** [settings.linkedin_person_id] *)
Variable linkedin_person_id : text.

(** [generate_content(request)], the handler of [POST /generate-content];
    [groq_service] is the global service object. *)
Definition generate_content (request : PostRequest) (rnd : nat)
    (groq_service : service) : http_result generated * service :=
  if negb (truthy (topic request))
     || is_empty (strip (text_of (topic request)))
  then (HTTPException 400 (str "Topic is required"), groq_service)
  else
    match generate_post_content complete
            (strip (text_of (topic request))) (tone request) (length request)
            (include_hashtags request) (target_audience request)
            (call_to_action request) rnd groq_service with
    | (Return content, groq_service) =>
        (Ok {| generated_content := content;
               generated_topic := topic request;
               generated_status := str "success" |}, groq_service)
    | (Raise e, groq_service) =>
        (HTTPException 500 (str "Failed to generate content: " ++ e),
         groq_service)
    end.

(** [create_post(request, background_tasks)], the handler of
    [POST /post/create]. *)
Definition create_post (request : PostRequest) (rnd : nat)
    (groq_service : service) : http_result PostResponse * service :=
  let generated :=
    if negb (truthy (content request))
    then generate_post_content_opt complete (topic request) (tone request)
           (length request) (include_hashtags request) None None rnd
           groq_service
    else (Return (text_of (content request)), groq_service) in
  match generated with
  | (Raise e, groq_service) => (HTTPException 500 e, groq_service)
  | (Return content, groq_service) =>
      match LinkedInHttp.create_post_result post_ugc content
              linkedin_person_id with
      | Raise e => (HTTPException 500 e, groq_service)
      | Return post_result =>
          (Ok {| success := true;
                 post_id := post_result;
                 response_content := content;
                 message := str "Post published successfully" |},
           groq_service)
      end
  end.

End Endpoints.

End Main.

(** ** Vocabulary of the further statements *)

(** A text with no whitespace at either end. *)
Definition trimmed (s : text) : bool :=
  match s with
  | [] => true
  | c :: _ => negb (isspace c) && negb (isspace (last s c))
  end.

(** The first line of a list of lines, if there is one, is not empty. *)
Definition starts_with_content (lines : list text) : Prop :=
  match lines with
  | [] => True
  | l :: _ => l <> []
  end.

(** The topic of a request is missing, empty or made of whitespace. *)
Definition blank_topic (request : Main.PostRequest) : bool :=
  negb (truthy (Main.topic request))
  || is_empty (strip (text_of (Main.topic request))).

(** A request as the page sends it. *)
Definition example_request (topic content : option text) : Main.PostRequest :=
  {| Main.topic := topic; Main.content := content;
     Main.tone := PROFESSIONAL; Main.length := MEDIUM;
     Main.include_hashtags := true; Main.schedule_time := None;
     Main.target_audience := None; Main.call_to_action := None |}.

(** A publish provider that accepts every post. *)
Definition created (data : post_data) : LinkedInHttp.http_answer :=
  LinkedInHttp.HttpResponse 201 [] (Some (str "urn:li:share:1")).

(** ** Facts about the string primitives *)

Section StringFacts.

(** The whitespace characters and the characters changed by [lower], by
    code point. *)
Lemma isspace_code_points :
  map N_of_ascii (filter isspace (map ascii_of_nat (seq 0 256)))
    = [9; 10; 11; 12; 13; 28; 29; 30; 31; 32; 133; 160]%N.
Proof. vm_compute. reflexivity. Qed.

Lemma lower_char_code_points :
  forallb (fun c =>
             let n := N_of_ascii c in
             N.eqb (N_of_ascii (lower_char c))
                   (if ((65 <=? n) && (n <=? 90))%N then n + 32
                    else if ((192 <=? n) && (n <=? 214))%N then n + 32
                    else if ((216 <=? n) && (n <=? 222))%N then n + 32
                    else n)%N)
          (map ascii_of_nat (seq 0 256)) = true.
Proof. vm_compute. reflexivity. Qed.

Lemma len_nonneg (s : text) : 0 <= len s.
Proof. unfold len. lia. Qed.

Lemma len_app (a b : text) : len (a ++ b) = len a + len b.
Proof. unfold len. rewrite length_app. lia. Qed.

Lemma slice_to_len (s : text) (n : Z) :
  0 <= n -> len (slice_to s n) = Z.min n (len s).
Proof.
  intros Hn. unfold slice_to.
  destruct (Z.ltb_spec n 0) as [Hneg | _]; [lia |].
  unfold len. rewrite length_firstn. lia.
Qed.

Lemma slice_to_len_le (s : text) (n : Z) : len (slice_to s n) <= len s.
Proof.
  unfold slice_to, len.
  destruct (n <? 0); rewrite length_firstn; lia.
Qed.

Lemma rfind_from_bounds (c : ascii) (s : text) :
  forall i acc, -1 <= acc < i -> -1 <= rfind_from c s i acc < i + len s.
Proof.
  induction s as [| x s IH]; intros i acc Hacc; simpl.
  - unfold len; simpl. lia.
  - assert (Hlen : len (x :: s) = 1 + len s)
      by (unfold len; simpl List.length; lia).
    rewrite Hlen.
    destruct (Ascii.eqb x c).
    + specialize (IH (i + 1) i). lia.
    + specialize (IH (i + 1) acc). lia.
Qed.

Lemma rfind_bounds (c : ascii) (s : text) : -1 <= rfind c s < len s.
Proof.
  unfold rfind. pose proof (rfind_from_bounds c s 0 (-1)). lia.
Qed.

Lemma split_on_nonempty (sep : ascii) (s : text) : split_on sep s <> [].
Proof.
  destruct s as [| c s]; simpl; [discriminate |].
  destruct (Ascii.eqb c sep); [discriminate |].
  destruct (split_on sep s); discriminate.
Qed.

Lemma join_cons (sep l : text) (ls : list text) :
  ls <> [] -> join sep (l :: ls) = l ++ sep ++ join sep ls.
Proof. destruct ls; [congruence | reflexivity]. Qed.

(** Splitting and joining again gives the text back. *)
Lemma join_split_on (sep : ascii) (s : text) :
  join [sep] (split_on sep s) = s.
Proof.
  induction s as [| c s IH]; [reflexivity |].
  simpl split_on.
  destruct (Ascii.eqb_spec c sep) as [-> | Hne].
  - rewrite join_cons by apply split_on_nonempty.
    simpl. now rewrite IH.
  - pose proof (split_on_nonempty sep s) as Hnil.
    destruct (split_on sep s) as [| l ls]; [congruence |].
    destruct ls as [| l' ls].
    + simpl in *. now rewrite IH.
    + change (join [sep] (l :: l' :: ls))
        with (l ++ [sep] ++ join [sep] (l' :: ls)) in IH.
      change (join [sep] ((c :: l) :: l' :: ls))
        with (c :: (l ++ [sep] ++ join [sep] (l' :: ls))).
      now rewrite IH.
Qed.

Lemma join_len_le_cons (sep l : text) (ls : list text) :
  len (join sep ls) <= len (join sep (l :: ls)).
Proof.
  destruct ls as [| l' ls].
  - simpl. apply len_nonneg.
  - rewrite (join_cons sep l) by discriminate.
    rewrite !len_app.
    pose proof (len_nonneg l). pose proof (len_nonneg sep). lia.
Qed.

(** Dropping lines never makes the joined text longer. *)
Lemma join_filter_len (sep : text) (f : text -> bool) (ls : list text) :
  len (join sep (filter f ls)) <= len (join sep ls).
Proof.
  induction ls as [| l ls IH]; [simpl; lia |].
  simpl filter. destruct (f l).
  - destruct ls as [| l' ls]; [simpl; lia |].
    rewrite (join_cons sep l (l' :: ls)) by discriminate.
    destruct (filter f (l' :: ls)) as [| k ks] eqn:Hf.
    + change (join sep [l]) with l. rewrite !len_app.
      pose proof (len_nonneg sep).
      pose proof (len_nonneg (join sep (l' :: ls))). lia.
    + rewrite (join_cons sep l (k :: ks)) by discriminate.
      rewrite !len_app. lia.
  - pose proof (join_len_le_cons sep l ls). lia.
Qed.

End StringFacts.

(** ** The length enforcer *)

Section Enforcer.

Lemma max3_lt (a b c m : Z) : a < m -> b < m -> c < m -> max3 a b c < m.
Proof. unfold max3. lia. Qed.

Lemma max3_ge (a b c : Z) : -1 <= a -> -1 <= max3 a b c.
Proof. unfold max3. lia. Qed.

Lemma best_ending_bounds (s : text) : -1 <= best_ending s < len s.
Proof.
  unfold best_ending.
  pose proof (rfind_bounds "."%char s).
  pose proof (rfind_bounds "?"%char s).
  pose proof (rfind_bounds "!"%char s).
  split; [apply max3_ge | apply max3_lt]; lia.
Qed.

Lemma cleaned_len_le (s : text) : len (cleaned s) <= len s.
Proof.
  unfold cleaned. rewrite <- (join_split_on nl s) at 2. apply join_filter_len.
Qed.

Lemma enforce_long (t : text) (max_chars : Z) :
  len t > max_chars ->
  _enforce_character_limit t max_chars =
    if len (cleaned (enforce_cut t max_chars)) <? max_chars - 50
    then cleaned (enforce_cut t max_chars) ++ continuation_note
    else cleaned (enforce_cut t max_chars).
Proof.
  intros Hlong. unfold _enforce_character_limit.
  destruct (Z.leb_spec (len t) max_chars) as [Hfit | _]; [lia |].
  destruct (Z.gtb_spec (len t) max_chars) as [_ | Hno]; [| lia].
  reflexivity.
Qed.

Lemma enforce_cut_len (t : text) (max_chars : Z) :
  0 <= max_chars -> len t > max_chars ->
  len (enforce_cut t max_chars) <= max_chars.
Proof.
  intros Hmax Hlong. unfold enforce_cut.
  assert (Htr : len (slice_to t max_chars) = max_chars)
    by (rewrite slice_to_len; lia).
  pose proof (best_ending_bounds (slice_to t max_chars)) as Hbest.
  destruct (_ >? max_chars - 200); [| lia].
  rewrite slice_to_len by lia. lia.
Qed.

Lemma continuation_note_len : len continuation_note = 36.
Proof. reflexivity. Qed.

(** Below zero no text fits the budget, so the bound of the enforcer is
    stated for budgets from zero on. *)
Lemma negative_budget_never_met (t : text) (max_chars : Z) :
  max_chars < 0 -> len (_enforce_character_limit t max_chars) > max_chars.
Proof.
  intros Hneg. pose proof (len_nonneg (_enforce_character_limit t max_chars)).
  lia.
Qed.

(** C8: a text that already fits the budget is returned unchanged. *)
Theorem enforce_identity_within_budget (t : text) (max_chars : Z) :
  len t <= max_chars -> _enforce_character_limit t max_chars = t.
Proof.
  intros Hfit. unfold _enforce_character_limit.
  destruct (Z.leb_spec (len t) max_chars); [reflexivity | lia].
Qed.

Lemma enforce_identity_within_budget_witness :
  _enforce_character_limit (str "Ship it. #ai") 2950 = str "Ship it. #ai".
Proof.
  apply (enforce_identity_within_budget (str "Ship it. #ai") 2950).
  vm_compute. discriminate.
Defined.

(** C1: for a budget that is not negative, the result of the enforcer is
    never longer than the budget, on every branch: the early return, the
    cut at a sentence end, the hard cut, the dropped hashtag lines and the
    appended continuation note.  The enforcer is a total function: no
    branch raises. *)
Theorem enforce_length_bound (t : text) (max_chars : Z) :
  0 <= max_chars -> len (_enforce_character_limit t max_chars) <= max_chars.
Proof.
  intros Hmax.
  destruct (Z.le_gt_cases (len t) max_chars) as [Hfit | Hlong].
  - unfold _enforce_character_limit.
    destruct (Z.leb_spec (len t) max_chars); [assumption | lia].
  - rewrite enforce_long by lia.
    pose proof (enforce_cut_len t max_chars Hmax ltac:(lia)) as Hcut.
    pose proof (cleaned_len_le (enforce_cut t max_chars)) as Hclean.
    destruct (Z.ltb_spec (len (cleaned (enforce_cut t max_chars)))
                         (max_chars - 50)) as [Hroom | _].
    + rewrite len_app, continuation_note_len. lia.
    + lia.
Qed.

Lemma enforce_length_bound_witness :
  len (_enforce_character_limit
         (str "Ship small. Ship often! Measure everything you can
#a") 30) <= 30.
Proof.
  apply (enforce_length_bound _ 30). lia.
Defined.

End Enforcer.

(** ** Lines of a text *)

Section Lines.

Lemma split_on_app_sep (sep : ascii) (a b : text) :
  split_on sep (a ++ sep :: b) = split_on sep a ++ split_on sep b.
Proof.
  induction a as [| c a IH]; simpl.
  - now rewrite Ascii.eqb_refl.
  - destruct (Ascii.eqb c sep); rewrite IH; [reflexivity |].
    pose proof (split_on_nonempty sep a) as Hne.
    destruct (split_on sep a); [congruence | reflexivity].
Qed.

Lemma split_on_no_sep (sep : ascii) (l : text) :
  ~ In sep l -> split_on sep l = [l].
Proof.
  induction l as [| c l IH]; intros Hnot; [reflexivity |].
  simpl. destruct (Ascii.eqb_spec c sep) as [-> | _].
  - exfalso. apply Hnot. now left.
  - rewrite IH; [reflexivity |]. intros Hin. apply Hnot. now right.
Qed.

Lemma split_on_lines_no_sep (sep : ascii) (s : text) :
  Forall (fun l => ~ In sep l) (split_on sep s).
Proof.
  induction s as [| c s IH]; simpl.
  - constructor; [intros [] | constructor].
  - destruct (Ascii.eqb_spec c sep) as [-> | Hne].
    + constructor; [intros [] | exact IH].
    + destruct (split_on sep s) as [| l ls]; inversion IH; subst.
      * constructor; [| constructor]. intros [H | []]. congruence.
      * constructor; [| assumption].
        intros [H | H]; [congruence | contradiction].
Qed.

(** Joining lines free of the separator and splitting again gives the
    lines back. *)
Lemma split_on_join (sep : ascii) (ls : list text) :
  ls <> [] -> Forall (fun l => ~ In sep l) ls ->
  split_on sep (join [sep] ls) = ls.
Proof.
  induction ls as [| l ls IH]; intros Hne Hall; [congruence |].
  inversion Hall as [| ? ? Hl Hls]; subst.
  destruct ls as [| l' ls].
  - simpl. now apply split_on_no_sep.
  - rewrite join_cons by discriminate.
    change (l ++ [sep] ++ join [sep] (l' :: ls))
      with (l ++ sep :: join [sep] (l' :: ls)).
    rewrite split_on_app_sep, split_on_no_sep by assumption.
    rewrite IH by (discriminate || assumption). reflexivity.
Qed.

Lemma last_app_nonempty {A} (xs ys : list A) (d : A) :
  ys <> [] -> last (xs ++ ys) d = last ys d.
Proof.
  intros Hne. induction xs as [| x xs IH]; [reflexivity |].
  simpl. destruct (xs ++ ys) eqn:Happ; [| exact IH].
  apply app_eq_nil in Happ. tauto.
Qed.

Lemma last_in {A} (xs : list A) (d : A) : xs <> [] -> In (last xs d) xs.
Proof.
  induction xs as [| x xs IH]; intros Hne; [congruence |].
  destruct xs as [| y xs]; [now left |].
  right. apply IH. discriminate.
Qed.

Lemma filter_all {A} (f : A -> bool) (xs : list A) :
  forallb f xs = true -> filter f xs = xs.
Proof.
  induction xs as [| x xs IH]; simpl; [reflexivity |].
  intros H. apply andb_prop in H as [Hx Hxs].
  rewrite Hx, IH by assumption. reflexivity.
Qed.

Lemma cleaned_final_line (cut : text) :
  incomplete_hashtag (final_line (cleaned cut)) = false.
Proof.
  unfold cleaned, final_line.
  set (kept := filter _ _).
  destruct kept as [| k ks] eqn:Hkept; [reflexivity |].
  rewrite split_on_join.
  - assert (Hin : In (last (k :: ks) []) kept)
      by (rewrite Hkept; apply last_in; discriminate).
    unfold kept in Hin. apply filter_In in Hin as [_ Hkeep].
    now apply negb_true_iff in Hkeep.
  - discriminate.
  - rewrite <- Hkept. unfold kept.
    apply Forall_forall. intros l Hl. apply filter_In in Hl as [Hl _].
    pose proof (split_on_lines_no_sep nl cut) as Hall.
    rewrite Forall_forall in Hall. now apply Hall.
Qed.

Lemma noted_final_line (s : text) :
  final_line (s ++ continuation_note) = str "[Content continued in comments...]".
Proof.
  unfold final_line.
  change continuation_note
    with (nl :: nl :: str "[Content continued in comments...]").
  rewrite split_on_app_sep.
  rewrite last_app_nonempty by apply split_on_nonempty.
  reflexivity.
Qed.

Lemma cleaned_unchanged (cut : text) :
  forallb (fun line => negb (incomplete_hashtag line)) (split_on nl cut)
    = true ->
  cleaned cut = cut.
Proof.
  intros H. unfold cleaned. rewrite filter_all by exact H.
  apply join_split_on.
Qed.

End Lines.

(** ** The enforcer and hashtag fragments *)

Section HashtagFragments.

(** C4, as the code has it: whenever the text exceeds the budget, the last
    line of the result is not a hashtag fragment shorter than three
    characters. *)
Theorem enforce_truncated_final_line (t : text) (max_chars : Z) :
  len t > max_chars ->
  incomplete_hashtag (final_line (_enforce_character_limit t max_chars))
    = false.
Proof.
  intros Hlong. rewrite (enforce_long t max_chars Hlong).
  destruct (len (cleaned (enforce_cut t max_chars)) <? max_chars - 50).
  - now rewrite noted_final_line.
  - apply cleaned_final_line.
Qed.

Lemma enforce_truncated_final_line_witness :
  incomplete_hashtag
    (final_line (_enforce_character_limit (str "Learn fast. Ship
#a") 18)) = false.
Proof.
  apply (enforce_truncated_final_line _ 18). vm_compute. reflexivity.
Defined.

(** C4 fails where the text fits the budget: it is returned as it is, with
    its two-character hashtag fragment as last line. *)
Lemma enforce_keeps_fragment_within_budget :
  len (str "Learn fast.
#a") <= 2950 /\
  final_line (_enforce_character_limit (str "Learn fast.
#a") 2950) = str "#a" /\
  incomplete_hashtag
    (final_line (_enforce_character_limit (str "Learn fast.
#a") 2950)) = true.
Proof. vm_compute. repeat split. discriminate. Qed.

End HashtagFragments.

(** ** The publish layer against the enforcer *)

Section PublishLayer.

Lemma checked_content_long (t : text) :
  len t > 3000 ->
  checked_content t =
    if best_ending (slice_to t 2950) >? 2800
    then slice_to t (best_ending (slice_to t 2950) + 1)
    else slice_to t 2950.
Proof.
  intros Hlong. unfold checked_content.
  destruct (Z.gtb_spec (len t) 3000) as [_ | Hno]; [reflexivity | lia].
Qed.

Lemma slice_to_prefix (t : text) (n : Z) :
  exists rest, t = slice_to t n ++ rest.
Proof.
  unfold slice_to. destruct (n <? 0); eexists; symmetry; apply firstn_skipn.
Qed.

(** C2 fails: with the last sentence end at index 2850 the publish layer
    cuts after it and stops, the enforcer goes on to append its
    continuation note. *)
Lemma create_post_differs_from_enforce :
  len sentence_end_at_2850 > 3000 /\
  share_commentary_text (create_post sentence_end_at_2850 (str "abc123"))
    <> _enforce_character_limit sentence_end_at_2850 2950.
Proof.
  split; [vm_compute; reflexivity |].
  intros Heq. apply (f_equal len) in Heq. vm_compute in Heq. discriminate.
Qed.

(** C2, as the code has it: for a text of more than 3000 characters the
    publish layer sends a prefix of it of at most 2950 characters; when
    that prefix has no line that is a hashtag fragment, it is the result of
    the enforcer at budget 2950 exactly when the rightmost sentence end of
    the first 2950 characters lies at index 2750 or below, or at 2899 or
    above. *)
Theorem create_post_truncation (t person_id : text) :
  len t > 3000 ->
  (exists rest, t = share_commentary_text (create_post t person_id) ++ rest)
  /\ len (share_commentary_text (create_post t person_id)) <= 2950
  /\ (forallb (fun line => negb (incomplete_hashtag line))
              (split_on nl (share_commentary_text (create_post t person_id)))
        = true ->
      (share_commentary_text (create_post t person_id)
         = _enforce_character_limit t 2950
       <-> best_ending (slice_to t 2950) <= 2750
           \/ 2899 <= best_ending (slice_to t 2950))).
Proof.
  intros Hlong. unfold create_post. cbn [share_commentary_text].
  rewrite (checked_content_long t Hlong).
  rewrite (enforce_long t 2950) by lia.
  unfold enforce_cut.
  assert (Htr : len (slice_to t 2950) = 2950)
    by (rewrite slice_to_len; lia).
  pose proof (best_ending_bounds (slice_to t 2950)) as Hbest.
  set (best := best_ending (slice_to t 2950)) in *.
  assert (Hcut : len (slice_to t (best + 1)) = best + 1)
    by (rewrite slice_to_len; lia).
  pose proof (cleaned_len_le (slice_to t (best + 1))) as Hclean.
  destruct (Z.gtb_spec best 2800) as [Hhi | Hlo].
  - (* both cut after the sentence end *)
    split; [apply slice_to_prefix |]. split; [lia |]. intros Hlines.
    destruct (Z.gtb_spec best (2950 - 200)) as [_ | Hno]; [| lia].
    rewrite (cleaned_unchanged _ Hlines) in *.
    destruct (Z.ltb_spec (len (slice_to t (best + 1))) (2950 - 50))
      as [Hroom | Hfull].
    + split; [| lia].
      intros Heq. apply (f_equal len) in Heq.
      rewrite len_app, continuation_note_len in Heq. lia.
    + split; [lia | reflexivity].
  - (* the publish layer makes the hard cut *)
    split; [apply slice_to_prefix |]. split; [lia |]. intros Hlines.
    destruct (Z.gtb_spec best (2950 - 200)) as [Hmid | Hlow].
    + (* the enforcer still cuts at the sentence end *)
      split; [| lia].
      destruct (Z.ltb_spec (len (cleaned (slice_to t (best + 1))))
                           (2950 - 50)) as [Hroom | Hfull]; [| lia].
      intros Heq. apply (f_equal len) in Heq.
      rewrite len_app, continuation_note_len in Heq. lia.
    + rewrite (cleaned_unchanged _ Hlines).
      destruct (Z.ltb_spec (len (slice_to t 2950)) (2950 - 50));
        [lia | split; [lia | reflexivity]].
Qed.

Lemma create_post_truncation_witness :
  len (share_commentary_text
         (create_post sentence_end_at_2900 (str "abc123"))) <= 2950
  /\ share_commentary_text (create_post sentence_end_at_2900 (str "abc123"))
     = _enforce_character_limit sentence_end_at_2900 2950.
Proof.
  destruct (create_post_truncation sentence_end_at_2900 (str "abc123"))
    as (_ & Hlen & Hsame).
  - vm_compute. reflexivity.
  - split; [exact Hlen |]. apply Hsame.
    + vm_compute. reflexivity.
    + right. vm_compute. discriminate.
Defined.

End PublishLayer.

(** ** Substrings *)

Section Substrings.

Lemma infix_refl (a : text) : infix a a.
Proof. exists [], []. simpl. now rewrite app_nil_r. Qed.

Lemma infix_nil (b : text) : infix [] b.
Proof. exists [], b. reflexivity. Qed.

Lemma infix_trans (a b c : text) : infix a b -> infix b c -> infix a c.
Proof.
  intros (p1 & q1 & ->) (p2 & q2 & ->).
  exists (p2 ++ p1), (q1 ++ q2). now rewrite <- !app_assoc.
Qed.

Lemma infix_of_nil (a : text) : infix a [] -> a = [].
Proof.
  intros (pre & post & H). symmetry in H.
  apply app_eq_nil in H as [_ H]. now apply app_eq_nil in H as [H _].
Qed.

Lemma infix_lower (a b : text) : infix a b -> infix (lower a) (lower b).
Proof.
  intros (pre & post & ->). exists (lower pre), (lower post).
  unfold lower. now rewrite !map_app.
Qed.

Lemma startswith_app (p rest : text) : startswith p (p ++ rest) = true.
Proof.
  induction p as [| a p IH]; simpl; [reflexivity |].
  now rewrite Ascii.eqb_refl, IH.
Qed.

Lemma startswith_true (p s : text) :
  startswith p s = true -> exists rest, s = p ++ rest.
Proof.
  revert s. induction p as [| a p IH]; intros s H.
  - now exists s.
  - destruct s as [| b s]; simpl in H; [discriminate |].
    apply andb_prop in H as [Hab Hps].
    apply Ascii.eqb_eq in Hab as ->.
    destruct (IH s Hps) as [rest ->]. now exists rest.
Qed.

Lemma contains_unfold (needle hay : text) :
  contains needle hay =
    startswith needle hay ||
    match hay with [] => false | _ :: hay' => contains needle hay' end.
Proof. destruct hay; reflexivity. Qed.

Lemma contains_infix (needle hay : text) :
  contains needle hay = true -> infix needle hay.
Proof.
  induction hay as [| c hay IH]; rewrite contains_unfold; intros H;
    apply orb_prop in H as [H | H]; try discriminate.
  - destruct (startswith_true _ _ H) as [rest ->]. now exists [], rest.
  - destruct (startswith_true _ _ H) as [rest ->]. now exists [], rest.
  - destruct (IH H) as (pre & post & ->). now exists (c :: pre), post.
Qed.

Lemma infix_contains (needle hay : text) :
  infix needle hay -> contains needle hay = true.
Proof.
  intros (pre & post & ->).
  induction pre as [| c pre IH].
  - rewrite contains_unfold. simpl app. now rewrite startswith_app.
  - change (contains needle ((c :: pre) ++ needle ++ post))
      with (startswith needle (c :: pre ++ needle ++ post)
            || contains needle (pre ++ needle ++ post)).
    rewrite IH. apply orb_true_r.
Qed.

(** A run without the separator lies on one side of it. *)
Lemma infix_app_sep (sep : ascii) (o a b : text) :
  ~ In sep o -> infix o (a ++ sep :: b) -> infix o a \/ infix o b.
Proof.
  intros Hsep (pre & post & H).
  apply app_eq_app in H as [l [[Ha Hb] | [Hp Hb]]].
  - apply app_eq_app in Hb as [l2 [[Ho Hs] | [Hl Hpost]]].
    + destruct l2 as [| x l2].
      * rewrite app_nil_r in Ho. subst. left. exists pre, [].
        now rewrite app_nil_r.
      * injection Hs as <- _. exfalso. apply Hsep. subst o.
        apply in_or_app. right. now left.
    + subst. left. now exists pre, l2.
  - destruct l as [| x l].
    + destruct o as [| y o]; [left; apply infix_nil |].
      injection Hb as <- _. exfalso. apply Hsep. now left.
    + injection Hb as _ ->. right. now exists l, post.
Qed.

Lemma infix_join (sep : ascii) (o : text) (ls : list text) :
  ~ In sep o -> infix o (join [sep] ls) ->
  o = [] \/ exists l, In l ls /\ infix o l.
Proof.
  intros Hsep. induction ls as [| l ls IH]; intros H.
  - left. now apply infix_of_nil.
  - destruct ls as [| l' ls].
    + right. exists l. split; [now left | exact H].
    + change (join [sep] (l :: l' :: ls))
        with (l ++ sep :: join [sep] (l' :: ls)) in H.
      apply infix_app_sep in H as [H | H]; [| | exact Hsep].
      * right. exists l. split; [now left | exact H].
      * destruct (IH H) as [-> | (k & Hk & Hok)]; [now left |].
        right. exists k. split; [now right | exact Hok].
Qed.

Lemma in_join_infix (sep l : text) (ls : list text) :
  In l ls -> infix l (join sep ls).
Proof.
  induction ls as [| k ls IH]; intros Hin; [contradiction |].
  destruct ls as [| k' ls].
  - destruct Hin as [-> | []]. apply infix_refl.
  - rewrite join_cons by discriminate.
    destruct Hin as [-> | Hin].
    + now exists [], (sep ++ join sep (k' :: ls)).
    + destruct (IH Hin) as (pre & post & ->).
      exists (k ++ sep ++ pre), post. now rewrite <- !app_assoc.
Qed.

Lemma in_split_on_infix (sep : ascii) (l s : text) :
  In l (split_on sep s) -> infix l s.
Proof.
  intros Hin. rewrite <- (join_split_on sep s) at 1.
  now apply in_join_infix.
Qed.

Lemma lstrip_suffix (s : text) : exists pre, s = pre ++ lstrip s.
Proof.
  induction s as [| c s [pre IH]]; [now exists [] |].
  simpl. destruct (isspace c).
  - exists (c :: pre). simpl. now rewrite <- IH.
  - now exists [].
Qed.

Lemma rstrip_prefix (s : text) : exists post, s = rstrip s ++ post.
Proof.
  unfold rstrip. destruct (lstrip_suffix (rev s)) as [pre H].
  exists (rev pre). rewrite <- rev_app_distr, <- H. symmetry.
  apply rev_involutive.
Qed.

Lemma strip_infix (s : text) : infix (strip s) s.
Proof.
  unfold strip.
  destruct (lstrip_suffix s) as [pre Hl].
  destruct (rstrip_prefix (lstrip s)) as [post Hr].
  exists pre, post. now rewrite <- Hr.
Qed.

End Substrings.

(** ** The response sanitizer *)

Section Sanitizer.

(** A line that contains a leak phrase contains it in every text it is
    part of. *)
Lemma should_skip_infix (o k : text) :
  infix o k -> should_skip o = true -> should_skip k = true.
Proof.
  unfold should_skip. intros Hok H.
  apply existsb_exists in H as (phrase & Hin & Hc).
  apply existsb_exists. exists phrase. split; [exact Hin |].
  apply infix_contains.
  apply infix_trans with (lower o); [now apply contains_infix |].
  now apply infix_lower.
Qed.

(** Every line the loop appends is free of leak phrases. *)
Lemma clean_loop_kept (lines : list text) :
  forall cleaned_lines k,
    In k (clean_loop lines cleaned_lines) ->
    In k cleaned_lines \/ should_skip k = false.
Proof.
  induction lines as [| line rest IH]; intros acc k Hin; [now left |].
  simpl in Hin.
  destruct (should_skip (strip line)) eqn:Hskip; [now apply IH |].
  destruct (is_empty (strip line) && is_empty acc); [now apply IH |].
  destruct (prompt_formatting (strip line)); [now apply IH |].
  apply IH in Hin as [Hin | Hk]; [| now right].
  apply in_app_or in Hin as [Hin | [<- | []]]; [now left | now right].
Qed.

Lemma clean_response_lines (content line : text) :
  In line (split_on nl (fst (_clean_response content))) ->
  should_skip line = false.
Proof.
  unfold _clean_response. cbn [fst]. intros Hin.
  set (kept := clean_loop (split_on nl content) []) in *.
  assert (Hsep : ~ In nl line).
  { pose proof (split_on_lines_no_sep nl (strip (join [nl] kept))) as Hall.
    rewrite Forall_forall in Hall. now apply Hall. }
  assert (Hinfix : infix line (join [nl] kept)).
  { apply infix_trans with (strip (join [nl] kept));
      [now apply (in_split_on_infix nl) | apply strip_infix]. }
  destruct (infix_join nl line kept Hsep Hinfix) as [-> | (k & Hk & Hlk)];
    [reflexivity |].
  apply clean_loop_kept in Hk as [[] | Hk].
  destruct (should_skip line) eqn:Hline; [| reflexivity].
  rewrite (should_skip_infix line k Hlk Hline) in Hk. discriminate.
Qed.

(** C7: no line of the cleaned text contains one of the fixed leak phrases,
    compared without regard to case; in particular no line of it is
    "CRITICAL: stay under limit". *)
Theorem clean_response_no_leak_phrase (content line phrase : text) :
  In line (split_on nl (fst (_clean_response content))) ->
  In phrase instruction_phrases ->
  contains (lower phrase) (lower line) = false
  /\ line <> str "CRITICAL: stay under limit".
Proof.
  intros Hline Hphrase.
  pose proof (clean_response_lines content line Hline) as Hskip.
  split.
  - destruct (contains (lower phrase) (lower line)) eqn:Hc; [| reflexivity].
    assert (Hex : should_skip line = true)
      by (apply existsb_exists; now exists phrase).
    rewrite Hex in Hskip. discriminate.
  - intros ->. vm_compute in Hskip. discriminate.
Qed.

Lemma clean_response_no_leak_phrase_witness :
  contains (lower (str "CRITICAL:")) (lower (str "Ship small, ship often."))
    = false
  /\ str "Ship small, ship often." <> str "CRITICAL: stay under limit".
Proof.
  apply (clean_response_no_leak_phrase
           (str "Here's a LinkedIn post about shipping:
CRITICAL: stay under limit
Ship small, ship often.
- Use emojis")).
  - vm_compute. left. reflexivity.
  - vm_compute. do 9 right. left. reflexivity.
Defined.

Lemma clean_loop_all_dropped (lines : list text) :
  forallb dropped lines = true -> clean_loop lines [] = [].
Proof.
  induction lines as [| line rest IH]; intros H; [reflexivity |].
  simpl in H. apply andb_prop in H as [Hline Hrest].
  simpl. unfold dropped in Hline.
  destruct (should_skip (strip line)); [now apply IH |].
  destruct (is_empty (strip line)); [now apply IH |].
  simpl in Hline. rewrite Hline. now apply IH.
Qed.

(** C9: when every line of the input is dropped, the cleaned text is empty
    and the warning about short content is logged; the function returns. *)
Theorem clean_response_all_dropped (content : text) :
  forallb dropped (split_on nl content) = true ->
  _clean_response content = ([], true).
Proof.
  intros H. unfold _clean_response.
  now rewrite (clean_loop_all_dropped _ H).
Qed.

Lemma clean_response_all_dropped_witness :
  _clean_response (str "Here's a LinkedIn post about testing:
CRITICAL: stay under limit

  tone: casual
- Use emojis
- short bullet") = ([], true).
Proof.
  apply clean_response_all_dropped. vm_compute. reflexivity.
Defined.

End Sanitizer.

(** ** Model selection and fallback *)

Section Fallback.

Variable complete : nat -> completion_request -> api_result.

Lemma model_of_key_fast : model_of_key (str "fast") = fast_model.
Proof. reflexivity. Qed.

Lemma text_eqb_refl (a : text) : text_eqb a a = true.
Proof.
  induction a as [| x a IH]; simpl; [reflexivity |].
  now rewrite Ascii.eqb_refl.
Qed.

Lemma text_eqb_eq (a b : text) : text_eqb a b = true -> a = b.
Proof.
  revert b. induction a as [| x a IH]; intros [| y b] H; simpl in H;
    try discriminate; [reflexivity |].
  apply andb_prop in H as [Hxy Hab].
  apply Ascii.eqb_eq in Hxy as ->. f_equal. now apply IH.
Qed.

(** One call of [_generate_with_groq] sends exactly one request, for the
    current model and the given prompt, and leaves [model_name] alone. *)
Lemma generate_with_groq_state (prompt : text) (self : service) :
  exists r,
    snd (_generate_with_groq complete prompt self)
      = {| model_name := model_name self; api_log := api_log self ++ [r] |}
    /\ req_model r = model_name self /\ req_user r = prompt.
Proof.
  unfold _generate_with_groq.
  set (request := if text_eqb _ _ then _ else _).
  exists request. split.
  - destruct (complete _ request) as [[| c cs] | msg]; reflexivity.
  - unfold request. destruct (text_eqb _ _); split; reflexivity.
Qed.

Lemma generate_with_groq_model (prompt : text) (self self' : service)
      (res : outcome text) :
  _generate_with_groq complete prompt self = (res, self') ->
  model_name self' = model_name self.
Proof.
  intros H. destruct (generate_with_groq_state prompt self) as (r & Hs & _).
  rewrite H in Hs. cbn [snd] in Hs. now rewrite Hs.
Qed.

(** [_generate_with_groq] puts its prefix before the message of the
    provider; a message that matches a pattern still matches behind it. *)
Lemma is_model_error_wrapped (msg : text) :
  is_model_error msg = true -> is_model_error (api_error_prefix ++ msg) = true.
Proof.
  assert (Hmono : forall w, contains w (lower msg) = true ->
                            contains w (lower (api_error_prefix ++ msg)) = true).
  { intros w Hw. apply infix_contains.
    apply infix_trans with (lower msg); [now apply contains_infix |].
    apply infix_lower. now exists api_error_prefix, []; rewrite app_nil_r. }
  unfold is_model_error. intros H.
  apply andb_prop in H as [Hm Hd]. rewrite (Hmono _ Hm).
  apply orb_prop in Hd as [Hd | Hd]; rewrite (Hmono _ Hd);
    [reflexivity | apply orb_true_r].
Qed.

Lemma is_rate_limit_wrapped (msg : text) :
  is_rate_limit msg = true -> is_rate_limit (api_error_prefix ++ msg) = true.
Proof.
  assert (Hmono : forall w, contains w (lower msg) = true ->
                            contains w (lower (api_error_prefix ++ msg)) = true).
  { intros w Hw. apply infix_contains.
    apply infix_trans with (lower msg); [now apply contains_infix |].
    apply infix_lower. now exists api_error_prefix, []; rewrite app_nil_r. }
  unfold is_rate_limit. intros H.
  apply orb_prop in H as [H | H]; [apply orb_prop in H as [H | H] |].
  - now rewrite (Hmono _ H).
  - rewrite (Hmono _ H). now rewrite orb_true_r.
  - assert (Hc : contains (str "429") (api_error_prefix ++ msg) = true).
    { apply infix_contains.
      apply infix_trans with msg; [now apply contains_infix |].
      now exists api_error_prefix, []; rewrite app_nil_r. }
    rewrite Hc. apply orb_true_r.
Qed.

Lemma handle_rate_limit_state (topic e : text) (self : service) :
  snd (handle_rate_limit topic e self) = self.
Proof. unfold handle_rate_limit. now destruct (is_rate_limit e). Qed.

Section Run.

Variables (topic : text) (tone : PostTone) (length : PostLength)
          (hashtags : bool) (target_audience call_to_action : option text)
          (rnd : nat) (self : service).

Let prompt :=
  prompt_of topic tone length hashtags target_audience call_to_action rnd.

Let run :=
  generate_post_content complete topic tone length hashtags
                        target_audience call_to_action rnd self.

Lemma run_model_error (e : text) (self1 : service) :
  _generate_with_groq complete prompt self = (Raise e, self1) ->
  is_model_error e = true ->
  run =
    match _generate_with_groq complete prompt (retry_state self1) with
    | (Return content, self2) =>
        (Return (_enforce_character_limit content default_max_chars),
         self2)
    | (Raise fallback_error, self2) =>
        handle_rate_limit topic e
          (set_model_name (model_name self1) self2)
    end.
Proof.
  intros H1 He. unfold run, generate_post_content.
  fold prompt. unfold prompt_of in prompt. fold prompt.
  rewrite H1, He. reflexivity.
Qed.

Lemma run_other_error (e : text) (self1 : service) :
  _generate_with_groq complete prompt self = (Raise e, self1) ->
  is_model_error e = false ->
  run = handle_rate_limit topic e self1.
Proof.
  intros H1 He. unfold run, generate_post_content.
  fold prompt. unfold prompt_of in prompt. fold prompt.
  rewrite H1, He. reflexivity.
Qed.

Lemma run_fallback_failed (e fallback_error : text) (self1 self2 : service) :
  _generate_with_groq complete prompt self = (Raise e, self1) ->
  is_model_error e = true ->
  _generate_with_groq complete prompt (retry_state self1)
    = (Raise fallback_error, self2) ->
  run = handle_rate_limit topic e (set_model_name (model_name self) self2).
Proof.
  intros H1 He H2. rewrite (run_model_error e self1 H1 He), H2.
  now rewrite (generate_with_groq_model _ _ _ _ H1).
Qed.

(** C6: when the first attempt fails with a model error, exactly one more
    request is sent, for the fast model and the same prompt; and when
    that retry succeeds, the run returns its content (passed through the
    length enforcer, as on the first attempt), with the fast model as the
    current model, which differs from the original one unless that was
    the fast model already. *)
Theorem fallback_retries_once (e : text) (self1 : service) :
  _generate_with_groq complete prompt self = (Raise e, self1) ->
  is_model_error e = true ->
  (exists r1 r2,
      api_log (snd run) = api_log self ++ [r1; r2]
      /\ req_model r1 = model_name self
      /\ req_model r2 = fast_model /\ req_user r2 = prompt)
  /\ (forall content self2,
         _generate_with_groq complete prompt (retry_state self1)
           = (Return content, self2) ->
         fst run
           = Return (_enforce_character_limit content default_max_chars)
         /\ model_name (snd run) = fast_model
         /\ (model_name self <> fast_model ->
             model_name (snd run) <> model_name self)).
Proof.
  intros H1 He. rewrite (run_model_error e self1 H1 He).
  destruct (generate_with_groq_state prompt self) as (r1 & Hs1 & Hm1 & _).
  rewrite H1 in Hs1. cbn [snd] in Hs1.
  destruct (generate_with_groq_state prompt (retry_state self1))
    as (r2 & Hs2 & Hm2 & Hu2).
  destruct (_generate_with_groq complete prompt (retry_state self1))
    as [[content | fe] self2] eqn:H2; cbn [snd] in Hs2; split.
  - exists r1, r2. cbn [snd]. rewrite Hs2. cbn [api_log retry_state
      set_model_name]. rewrite Hs1. cbn [api_log].
    rewrite <- app_assoc. repeat split; assumption.
  - intros content' self2' Heq. injection Heq as <- <-. cbn [fst snd].
    rewrite Hs2. cbn [model_name retry_state set_model_name].
    repeat split. intros Hne Heq. apply Hne. now rewrite <- Heq.
  - exists r1, r2. rewrite handle_rate_limit_state.
    cbn [api_log set_model_name]. rewrite Hs2.
    cbn [api_log retry_state set_model_name]. rewrite Hs1.
    cbn [api_log]. rewrite <- app_assoc. repeat split; assumption.
  - intros content self2' Heq. discriminate.
Qed.

(** C3, as the code has it: when the retry fails as well, the original
    model is current again and the run ends as the first error decides:
    that error is raised again, or, when its message also matches the
    rate-limit pattern, the rate-limit notice is returned.  The error of
    the retry is not part of either. *)
Theorem fallback_failure_outcome (e fallback_error : text)
        (self1 self2 : service) :
  _generate_with_groq complete prompt self = (Raise e, self1) ->
  is_model_error e = true ->
  _generate_with_groq complete prompt (retry_state self1)
    = (Raise fallback_error, self2) ->
  model_name (snd run) = model_name self
  /\ fst run =
       if is_rate_limit e
       then Return (rate_limit_notice topic (model_name self))
       else Raise e.
Proof.
  intros H1 He H2. rewrite (run_fallback_failed e _ self1 self2 H1 He H2).
  unfold handle_rate_limit.
  destruct (is_rate_limit e); cbn [fst snd set_model_name model_name];
    split; reflexivity.
Qed.

End Run.

End Fallback.

Section RateLimit.

Variable complete : nat -> completion_request -> api_result.

Lemma notice_contains_topic (topic model : text) :
  contains topic (rate_limit_notice topic model) = true.
Proof.
  apply infix_contains. unfold rate_limit_notice.
  match goal with
  | |- infix _ (?head ++ _ ++ ?rest) => now exists head, rest
  end.
Qed.

Lemma notice_contains_model (topic model : text) :
  contains model (rate_limit_notice topic model) = true.
Proof.
  apply infix_contains. unfold rate_limit_notice.
  match goal with
  | |- infix _ (?head ++ _ ++ ?mid ++ _ ++ ?rest) =>
      exists (head ++ topic ++ mid), rest
  end.
  now rewrite <- !app_assoc.
Qed.

(** C5, as the code has it: when the first attempt fails with a message
    matching the rate-limit pattern, and either that message is not a model
    error or the retry with the fast model fails too, the run returns the
    rate-limit notice, which contains the topic and the current model, the
    original one. *)
Theorem rate_limit_notice_returned
    (topic : text) (tone : PostTone) (length : PostLength) (hashtags : bool)
    (target_audience call_to_action : option text) (rnd : nat)
    (self : service) (e : text) (self1 : service) :
  _generate_with_groq complete
    (prompt_of topic tone length hashtags target_audience call_to_action rnd)
    self = (Raise e, self1) ->
  is_rate_limit e = true ->
  is_model_error e = false
  \/ (exists fallback_error self2,
         _generate_with_groq complete
           (prompt_of topic tone length hashtags target_audience
                      call_to_action rnd)
           (retry_state self1) = (Raise fallback_error, self2)) ->
  let run := generate_post_content complete topic tone length hashtags
               target_audience call_to_action rnd self in
  fst run = Return (rate_limit_notice topic (model_name (snd run)))
  /\ model_name (snd run) = model_name self
  /\ contains topic (rate_limit_notice topic (model_name (snd run))) = true
  /\ contains (model_name (snd run))
              (rate_limit_notice topic (model_name (snd run))) = true.
Proof.
  intros H1 Hrate Hcase run.
  assert (Hrun : fst run = Return (rate_limit_notice topic (model_name self))
                 /\ model_name (snd run) = model_name self).
  { destruct Hcase as [Hmodel | (fe & self2 & H2)].
    - unfold run.
      rewrite (run_other_error complete _ _ _ _ _ _ _ _ e self1 H1 Hmodel).
      unfold handle_rate_limit. rewrite Hrate. cbn [fst snd].
      rewrite (generate_with_groq_model complete _ _ _ _ H1).
      split; reflexivity.
    - destruct (is_model_error e) eqn:Hmodel.
      + unfold run.
        rewrite (run_fallback_failed complete _ _ _ _ _ _ _ _ e fe
                   self1 self2 H1 Hmodel H2).
        unfold handle_rate_limit. rewrite Hrate.
        cbn [fst snd set_model_name model_name]. split; reflexivity.
      + unfold run.
        rewrite (run_other_error complete _ _ _ _ _ _ _ _ e self1 H1 Hmodel).
        unfold handle_rate_limit. rewrite Hrate. cbn [fst snd].
        rewrite (generate_with_groq_model complete _ _ _ _ H1).
        split; reflexivity. }
  destruct Hrun as [Hres Hmodel]. rewrite Hmodel.
  repeat split;
    [exact Hres | apply notice_contains_topic | apply notice_contains_model].
Qed.

End RateLimit.

(** ** Runs of the fallback on concrete providers *)

Section FallbackRuns.

Lemma fallback_retries_once_witness :
  fst (example_run (answers decommissioned fresh_post))
    = Return (str "Remote teams thrive on written updates.")
  /\ model_name (snd (example_run (answers decommissioned fresh_post)))
     = fast_model.
Proof.
  edestruct (fallback_retries_once (answers decommissioned fresh_post)
               example_topic CASUAL SHORT true None None 0%nat (__init__ None))
    as [_ Hretry].
  - reflexivity.
  - vm_compute. reflexivity.
  - edestruct Hretry as (Hres & Hmodel & _); [reflexivity |].
    split; [exact Hres | exact Hmodel].
Defined.

(** C3 fails: after a decommissioned-model error and a failed retry, the
    error that comes out is the first one; the message of the retry's error
    is nowhere in it. *)
Lemma fallback_failure_raises_original_error :
  fst (_generate_with_groq (answers decommissioned service_unavailable)
         example_prompt (__init__ None))
    = Raise (api_error_prefix ++ decommissioned_message)
  /\ is_model_error (api_error_prefix ++ decommissioned_message) = true
  /\ fst (_generate_with_groq (answers decommissioned service_unavailable)
            example_prompt
            (retry_state
               (snd (_generate_with_groq
                       (answers decommissioned service_unavailable)
                       example_prompt (__init__ None)))))
     = Raise (api_error_prefix ++ unavailable_message)
  /\ fst (example_run (answers decommissioned service_unavailable))
     = Raise (api_error_prefix ++ decommissioned_message)
  /\ fst (example_run (answers decommissioned service_unavailable))
     <> Raise (api_error_prefix ++ unavailable_message)
  /\ contains unavailable_message
       (api_error_prefix ++ decommissioned_message) = false.
Proof.
  vm_compute. repeat split. discriminate.
Qed.

Lemma fallback_failure_outcome_witness :
  model_name (snd (example_run (answers decommissioned service_unavailable)))
    = str "llama-3.3-70b-versatile"
  /\ fst (example_run (answers decommissioned service_unavailable))
     = Raise (api_error_prefix ++ decommissioned_message).
Proof.
  edestruct (fallback_failure_outcome
               (answers decommissioned service_unavailable)
               example_topic CASUAL SHORT true None None 0%nat (__init__ None))
    as [Hmodel Hres].
  - reflexivity.
  - vm_compute. reflexivity.
  - reflexivity.
  - split; [exact Hmodel | exact Hres].
Defined.

(** C5 fails: the first error matches the rate-limit pattern (through the
    word "migrate") and is a model error as well; the retry succeeds, and
    the run returns the generated post, not the notice. *)
Lemma rate_limit_match_returns_generated_post :
  fst (_generate_with_groq (answers decommissioned_migrate fresh_post)
         example_prompt (__init__ None))
    = Raise (api_error_prefix ++ migrate_message)
  /\ is_rate_limit (api_error_prefix ++ migrate_message) = true
  /\ fst (example_run (answers decommissioned_migrate fresh_post))
     = Return (str "Remote teams thrive on written updates.")
  /\ fst (example_run (answers decommissioned_migrate fresh_post))
     <> Return (rate_limit_notice example_topic
                 (model_name
                    (snd (example_run
                            (answers decommissioned_migrate fresh_post)))))
  /\ contains example_topic (str "Remote teams thrive on written updates.")
     = false.
Proof.
  vm_compute. repeat split. discriminate.
Qed.

Lemma rate_limit_notice_returned_witness :
  fst (example_run (answers too_many_requests fresh_post))
    = Return (rate_limit_notice example_topic (str "llama-3.3-70b-versatile"))
  /\ contains example_topic
       (rate_limit_notice example_topic (str "llama-3.3-70b-versatile"))
     = true.
Proof.
  edestruct (rate_limit_notice_returned
               (answers too_many_requests fresh_post)
               example_topic CASUAL SHORT true None None 0%nat (__init__ None))
    as (Hres & _ & Htopic & _).
  - reflexivity.
  - vm_compute. reflexivity.
  - left. vm_compute. reflexivity.
  - split; [exact Hres | exact Htopic].
Defined.

End FallbackRuns.

(** ** The current model stays in the catalog *)

Section Catalog.

Variable complete : nat -> completion_request -> api_result.

Lemma dict_get_in_values (d : list (text * text)) (key : text) :
  in_keys d key = true ->
  in_values d (match dict_get d key with Some v => v | None => [] end)
    = true.
Proof.
  induction d as [| [k v] d IH]; intros Hin; [discriminate |].
  unfold in_keys, in_values in *. cbn [existsb fst snd dict_get] in *.
  destruct (text_eqb k key).
  - now rewrite text_eqb_refl.
  - rewrite IH by exact Hin. apply orb_true_r.
Qed.

Lemma model_of_key_valid (key : text) :
  in_keys available_models key = true ->
  in_values available_models (model_of_key key) = true.
Proof. exact (dict_get_in_values available_models key). Qed.

Lemma init_valid (model_name_arg : option text) :
  valid_model (__init__ model_name_arg) = true.
Proof.
  unfold valid_model, __init__. cbn [model_name].
  destruct (truthy model_name_arg
            && in_values available_models (text_of model_name_arg)) eqn:Hv.
  - now apply andb_prop in Hv as [_ Hv].
  - destruct (truthy model_name_arg
              && in_keys available_models (text_of model_name_arg)) eqn:Hk.
    + apply andb_prop in Hk as [_ Hk]. now apply model_of_key_valid.
    + reflexivity.
Qed.

Lemma switch_model_valid (model_key : text) (self : service) :
  valid_model self = true -> valid_model (switch_model model_key self) = true.
Proof.
  intros Hself. unfold switch_model.
  destruct (in_keys available_models model_key) eqn:Hk; [| exact Hself].
  unfold valid_model. cbn [set_model_name model_name].
  now apply model_of_key_valid.
Qed.

Lemma generate_post_content_valid
    (topic : text) (tone : PostTone) (length : PostLength) (hashtags : bool)
    (target_audience call_to_action : option text) (rnd : nat)
    (self : service) :
  valid_model self = true ->
  valid_model (snd (generate_post_content complete topic tone length
                      hashtags target_audience call_to_action rnd self))
    = true.
Proof.
  intros Hself. unfold generate_post_content.
  set (prompt := _build_prompt _ _ _ _ _ _ _).
  destruct (_generate_with_groq complete prompt self)
    as [[content | e] self1] eqn:H1;
    pose proof (generate_with_groq_model complete _ _ _ _ H1) as Hm1.
  - unfold valid_model. cbn [snd]. now rewrite Hm1.
  - destruct (is_model_error e).
    + destruct (_generate_with_groq complete prompt
                  (set_model_name (model_of_key (str "fast")) self1))
        as [[content | fe] self2] eqn:H2;
        pose proof (generate_with_groq_model complete _ _ _ _ H2) as Hm2.
      * unfold valid_model. cbn [snd]. rewrite Hm2. reflexivity.
      * rewrite handle_rate_limit_state. unfold valid_model.
        cbn [set_model_name model_name]. now rewrite Hm1.
    + rewrite handle_rate_limit_state. unfold valid_model. now rewrite Hm1.
Qed.

Lemma perform_valid (c : call) (self : service) :
  valid_model self = true -> valid_model (perform complete c self) = true.
Proof.
  destruct c; simpl perform;
    [apply switch_model_valid | apply generate_post_content_valid].
Qed.

(** C10: after construction with any [model_name] argument (or none), and
    after any sequence of [switch_model] and [generate_post_content] calls
    against any provider, the current model is one of the four identifiers
    of the catalog. *)
Theorem model_name_in_catalog (model_name_arg : option text)
        (calls : list call) :
  In (model_name (perform_all complete calls (__init__ model_name_arg)))
     (map snd available_models)
  /\ List.length available_models = 4%nat.
Proof.
  split; [| reflexivity].
  assert (Hvalid : valid_model
            (perform_all complete calls (__init__ model_name_arg)) = true).
  { unfold perform_all.
    generalize (init_valid model_name_arg).
    generalize (__init__ model_name_arg) as self.
    induction calls as [| c calls IH]; intros self Hself; [exact Hself |].
    simpl. apply IH. now apply perform_valid. }
  unfold valid_model, in_values in Hvalid.
  apply existsb_exists in Hvalid as ([k v] & Hin & Heq).
  cbn [snd] in Heq.
  apply text_eqb_eq in Heq as <-.
  now apply (in_map snd) in Hin.
Qed.

End Catalog.

(** ** Trimmed texts *)

Section Trimmed.

Lemma rstrip_snoc (x : text) (c : ascii) :
  rstrip (x ++ [c]) = if isspace c then rstrip x else x ++ [c].
Proof.
  unfold rstrip. rewrite rev_app_distr. simpl.
  destruct (isspace c); [reflexivity |].
  simpl. now rewrite rev_involutive.
Qed.

Lemma lstrip_head (s : text) :
  lstrip s = [] \/ exists c r, lstrip s = c :: r /\ isspace c = false.
Proof.
  induction s as [| c s IH]; [now left |].
  simpl. destruct (isspace c) eqn:Hc; [exact IH |].
  right. now exists c, s.
Qed.

Lemma rstrip_last (s : text) :
  rstrip s = [] \/ exists x c, rstrip s = x ++ [c] /\ isspace c = false.
Proof.
  unfold rstrip. destruct (lstrip_head (rev s)) as [-> | (c & r & -> & Hc)].
  - now left.
  - right. exists (rev r), c. now split.
Qed.

Lemma rstrip_cons (c : ascii) (s : text) :
  isspace c = false -> rstrip (c :: s) = c :: rstrip s.
Proof.
  intros Hc. induction s as [| d s IH] using rev_ind.
  - change [c] with ([] ++ [c]). rewrite rstrip_snoc, Hc. reflexivity.
  - rewrite app_comm_cons, !rstrip_snoc, IH.
    now destruct (isspace d).
Qed.

Lemma trimmed_ends (s : text) :
  trimmed s = true ->
  s = [] \/ exists c r x d,
             s = c :: r /\ s = x ++ [d]
             /\ isspace c = false /\ isspace d = false.
Proof.
  destruct s as [| c r]; [now left |]. intros H. right.
  unfold trimmed in H. apply andb_prop in H as [Hc Hd].
  apply negb_true_iff in Hc, Hd.
  exists c, r, (removelast (c :: r)), (last (c :: r) c).
  repeat split; try assumption.
  now apply app_removelast_last.
Qed.

Lemma ends_trimmed (c d : ascii) (r x : text) :
  c :: r = x ++ [d] -> isspace c = false -> isspace d = false ->
  trimmed (c :: r) = true.
Proof.
  intros Heq Hc Hd. unfold trimmed. rewrite Heq at 1.
  rewrite last_last, Hc, Hd. reflexivity.
Qed.

(** [strip] leaves no whitespace at either end. *)
Lemma strip_trimmed (s : text) : trimmed (strip s) = true.
Proof.
  unfold strip. destruct (lstrip_head s) as [-> | (c & r & -> & Hc)];
    [reflexivity |].
  destruct (rstrip_last (c :: r)) as [H | (x & d & H & Hd)].
  - rewrite rstrip_cons in H by exact Hc. discriminate.
  - rewrite rstrip_cons in * by exact Hc.
    now apply (ends_trimmed c d (rstrip r) x).
Qed.

(** A text with no whitespace at either end is left alone by [strip]. *)
Lemma trimmed_strip (s : text) : trimmed s = true -> strip s = s.
Proof.
  intros H. destruct (trimmed_ends s H)
    as [-> | (c & r & x & d & Hs & Hx & Hc & Hd)]; [reflexivity |].
  unfold strip. rewrite Hs. simpl lstrip. rewrite Hc.
  rewrite <- Hs, Hx, rstrip_snoc, Hd. reflexivity.
Qed.

Lemma strip_idempotent (s : text) : strip (strip s) = strip s.
Proof. apply trimmed_strip, strip_trimmed. Qed.

Lemma join_snoc (sep l : text) (init : list text) :
  init <> [] -> join sep (init ++ [l]) = join sep init ++ sep ++ l.
Proof.
  induction init as [| k init IH]; intros Hne; [congruence |].
  destruct init as [| k' init].
  - reflexivity.
  - change ((k :: k' :: init) ++ [l]) with (k :: ((k' :: init) ++ [l])).
    rewrite (join_cons sep k) by (simpl; discriminate).
    rewrite IH by discriminate.
    rewrite (join_cons sep k (k' :: init)) by discriminate.
    now rewrite <- !app_assoc.
Qed.

(** Joined lines whose first line is trimmed and not empty start with a
    character that is not whitespace. *)
Lemma lstrip_join_app (first : text) (ls : list text) (tail : text) :
  first <> [] -> trimmed first = true ->
  lstrip (join [nl] (first :: ls) ++ tail) = join [nl] (first :: ls) ++ tail.
Proof.
  intros Hne Ht. destruct first as [| c f]; [congruence |].
  unfold trimmed in Ht. apply andb_prop in Ht as [Hc _].
  apply negb_true_iff in Hc.
  destruct ls; simpl; now rewrite Hc.
Qed.

(** Stripping joined lines, themselves trimmed and the first not empty,
    removes the empty lines at the end and nothing else. *)
Lemma strip_join_trimmed (kept : list text) :
  Forall (fun l => trimmed l = true) kept ->
  starts_with_content kept ->
  exists kept' blank,
    kept = kept' ++ blank
    /\ Forall (fun l => l = []) blank
    /\ strip (join [nl] kept) = join [nl] kept'
    /\ (kept <> [] -> kept' <> []).
Proof.
  induction kept as [| l init IH] using rev_ind; intros Hall Hfirst.
  - exists [], []. repeat split; auto.
  - apply Forall_app in Hall as [Hinit Hl].
    inversion Hl as [| ? ? Hlt _]; subst.
    destruct init as [| f init].
    + (* a single line *)
      simpl in Hfirst. exists [l], []. repeat split; auto.
      simpl. now apply trimmed_strip.
    + assert (Hf : f <> []) by exact Hfirst.
      assert (Hft : trimmed f = true) by now inversion Hinit.
      rewrite join_snoc by discriminate.
      destruct (trimmed_ends l Hlt)
        as [-> | (c' & r' & x & d & _ & Hx & _ & Hd)].
      * (* an empty last line goes away with its newline *)
        destruct (IH Hinit Hfirst) as (kept' & blank & Hk & Hb & Hs & Hne).
        exists kept', (blank ++ [[]]). repeat split.
        -- rewrite Hk at 1. now rewrite app_assoc.
        -- apply Forall_app. split; [exact Hb | now constructor].
        -- rewrite <- Hs. unfold strip.
           rewrite lstrip_join_app by assumption.
           rewrite <- (app_nil_r (join [nl] (f :: init))) at 2.
           rewrite lstrip_join_app by assumption.
           rewrite !app_nil_r. now rewrite rstrip_snoc.
        -- intros _. apply Hne. discriminate.
      * exists ((f :: init) ++ [l]), []. repeat split.
        -- now rewrite app_nil_r.
        -- constructor.
        -- rewrite join_snoc by discriminate.
           unfold strip. rewrite lstrip_join_app by assumption.
           rewrite Hx.
           replace (join [nl] (f :: init) ++ [nl] ++ x ++ [d])
             with ((join [nl] (f :: init) ++ [nl] ++ x) ++ [d])
             by now rewrite <- !app_assoc.
           now rewrite rstrip_snoc, Hd.
        -- intros _ H. now apply app_eq_nil in H as [H _].
Qed.

End Trimmed.

(** ** More on the response sanitizer *)

Section SanitizerShape.

Lemma infix_In (a b : text) (x : ascii) : infix a b -> In x a -> In x b.
Proof.
  intros (pre & post & ->) Hin.
  apply in_or_app. right. apply in_or_app. now left.
Qed.

(** A line of the result of the loop was already there or is the stripped
    form of an input line that passes the tests of the loop. *)
Lemma clean_loop_source (lines : list text) :
  forall cleaned_lines k,
    In k (clean_loop lines cleaned_lines) ->
    In k cleaned_lines
    \/ exists line, In line lines /\ k = strip line
                    /\ should_skip k = false /\ prompt_formatting k = false.
Proof.
  induction lines as [| line rest IH]; intros acc k Hin; [now left |].
  simpl in Hin.
  assert (Hrest : In k acc \/
            (exists line0, In line0 rest /\ k = strip line0
               /\ should_skip k = false /\ prompt_formatting k = false) ->
          In k acc \/
            (exists line0, In line0 (line :: rest) /\ k = strip line0
               /\ should_skip k = false /\ prompt_formatting k = false)).
  { intros [H | (l0 & Hl0 & H)]; [now left | right].
    exists l0. split; [now right | exact H]. }
  destruct (should_skip (strip line)) eqn:Hskip; [now apply Hrest, IH |].
  destruct (is_empty (strip line) && is_empty acc); [now apply Hrest, IH |].
  destruct (prompt_formatting (strip line)) eqn:Hfmt;
    [now apply Hrest, IH |].
  apply IH in Hin as [Hin | H]; [| now apply Hrest; right].
  apply in_app_or in Hin as [Hin | [<- | []]]; [now left | right].
  exists line. repeat split; try assumption. now left.
Qed.

Lemma clean_loop_first (lines : list text) :
  forall cleaned_lines,
    starts_with_content cleaned_lines ->
    starts_with_content (clean_loop lines cleaned_lines).
Proof.
  induction lines as [| line rest IH]; intros acc Hacc; [exact Hacc |].
  simpl.
  destruct (should_skip (strip line)); [now apply IH |].
  destruct (is_empty (strip line) && is_empty acc) eqn:Hblank;
    [now apply IH |].
  destruct (prompt_formatting (strip line)); [now apply IH |].
  apply IH. destruct acc as [| a acc]; [| exact Hacc].
  simpl. intros Heq. rewrite Heq in Hblank. discriminate.
Qed.

(** Lines that are trimmed, pass the tests and start with content are all
    kept, in their order. *)
Lemma clean_loop_keeps_all (lines : list text) :
  forall cleaned_lines,
    Forall (fun l => trimmed l = true /\ should_skip l = false
                     /\ prompt_formatting l = false) lines ->
    starts_with_content (cleaned_lines ++ lines) ->
    clean_loop lines cleaned_lines = cleaned_lines ++ lines.
Proof.
  induction lines as [| l rest IH]; intros acc Hall Hfirst;
    [now rewrite app_nil_r |].
  inversion Hall as [| ? ? (Ht & Hs & Hf) Hrest]; subst.
  simpl. rewrite (trimmed_strip l Ht), Hs, Hf.
  assert (Hblank : is_empty l && is_empty acc = false).
  { destruct acc as [| a acc]; [| apply andb_false_r].
    simpl in Hfirst. destruct l; [congruence | reflexivity]. }
  rewrite Hblank.
  replace (acc ++ l :: rest) with ((acc ++ [l]) ++ rest)
    by now rewrite <- app_assoc.
  apply IH; [exact Hrest |]. now rewrite <- app_assoc.
Qed.

(** The cleaned text is the lines the loop kept, joined, without the empty
    lines at their end. *)
Lemma clean_response_shape (content : text) :
  exists kept blank,
    clean_loop (split_on nl content) [] = kept ++ blank
    /\ Forall (fun l => l = []) blank
    /\ fst (_clean_response content) = join [nl] kept
    /\ (kept = [] \/ split_on nl (fst (_clean_response content)) = kept).
Proof.
  unfold _clean_response. cbn [fst].
  set (all := clean_loop (split_on nl content) []).
  assert (Hsrc : forall k, In k all ->
            exists line, In line (split_on nl content) /\ k = strip line).
  { intros k Hk. apply clean_loop_source in Hk as [[] | (l & Hl & Hkl & _)].
    now exists l. }
  assert (Htrim : Forall (fun l => trimmed l = true) all).
  { apply Forall_forall. intros k Hk.
    destruct (Hsrc k Hk) as (l & _ & ->). apply strip_trimmed. }
  assert (Hfirst : starts_with_content all)
    by (apply clean_loop_first; exact I).
  destruct (strip_join_trimmed all Htrim Hfirst)
    as (kept & blank & Hall & Hblank & Hstrip & _).
  exists kept, blank. repeat split; try assumption.
  destruct kept as [| k0 kept]; [now left | right].
  rewrite Hstrip. apply split_on_join; [discriminate |].
  apply Forall_forall. intros k Hk.
  destruct (Hsrc k) as (l & Hl & ->).
  { rewrite Hall. apply in_or_app. now left. }
  intros Hnl. apply (infix_In _ _ _ (strip_infix l)) in Hnl.
  pose proof (split_on_lines_no_sep nl content) as Hno.
  rewrite Forall_forall in Hno. now apply (Hno l Hl).
Qed.

(** X6: cleaning a cleaned text changes nothing: the same text and the same
    warning come out. *)
Theorem clean_response_idempotent (content : text) :
  _clean_response (fst (_clean_response content)) = _clean_response content.
Proof.
  destruct (clean_response_shape content)
    as (kept & blank & Hall & _ & Hfinal & Hlines).
  assert (Hfix : fst (_clean_response (fst (_clean_response content)))
                 = fst (_clean_response content)).
  { destruct Hlines as [-> | Hlines].
    - rewrite Hfinal. reflexivity.
    - unfold _clean_response at 1. cbn [fst]. rewrite Hlines.
      rewrite clean_loop_keeps_all.
      + simpl app. rewrite <- Hfinal. unfold _clean_response. cbn [fst].
        apply strip_idempotent.
      + apply Forall_forall. intros k Hk.
        assert (Hin : In k (clean_loop (split_on nl content) []))
          by (rewrite Hall; apply in_or_app; now left).
        apply clean_loop_source in Hin as [[] | (l & _ & -> & Hs & Hf)].
        repeat split; [apply strip_trimmed | exact Hs | exact Hf].
      + simpl app.
        pose proof (clean_loop_first (split_on nl content) [] I) as Hfirst.
        rewrite Hall in Hfirst. destruct kept; [exact I | exact Hfirst]. }
  unfold _clean_response in *. cbv beta zeta in *. cbn [fst] in *.
  now rewrite Hfix.
Qed.

(** X7: unless the cleaned text is empty, each of its lines is an input line
    with the whitespace at its ends removed, and none of them is a dash
    line of fewer than eight words. *)
Theorem clean_response_lines_from_input (content line : text) :
  fst (_clean_response content) <> [] ->
  In line (split_on nl (fst (_clean_response content))) ->
  (exists source, In source (split_on nl content) /\ line = strip source)
  /\ prompt_formatting line = false.
Proof.
  intros Hne Hin.
  destruct (clean_response_shape content)
    as (kept & blank & Hall & _ & Hfinal & [-> | Hlines]).
  - now rewrite Hfinal in Hne.
  - rewrite Hlines in Hin.
    assert (Hk : In line (clean_loop (split_on nl content) []))
      by (rewrite Hall; apply in_or_app; now left).
    apply clean_loop_source in Hk as [[] | (l & Hl & -> & _ & Hf)].
    split; [now exists l | exact Hf].
Qed.

Lemma clean_response_lines_from_input_witness :
  (exists source,
      In source (split_on nl (str "  Ship small.  
- Use emojis
   Measure everything you can.")) /\ str "Ship small." = strip source)
  /\ prompt_formatting (str "Ship small.") = false.
Proof.
  apply (clean_response_lines_from_input _ (str "Ship small.")).
  - vm_compute. discriminate.
  - vm_compute. left. reflexivity.
Defined.

End SanitizerShape.

(** ** More on the length enforcer *)

Section EnforcerShape.

Lemma rfind_from_absent (c : ascii) (s : text) :
  forall i acc, ~ In c s -> rfind_from c s i acc = acc.
Proof.
  induction s as [| x s IH]; intros i acc Hnot; [reflexivity |].
  simpl. destruct (Ascii.eqb_spec x c) as [-> | _].
  - exfalso. apply Hnot. now left.
  - apply IH. intros Hin. apply Hnot. now right.
Qed.

Lemma rfind_absent (c : ascii) (s : text) : ~ In c s -> rfind c s = -1.
Proof. apply rfind_from_absent. Qed.

(** What [rfind] returns is its default or the index of an occurrence. *)
Lemma rfind_from_hit (c : ascii) (s : text) :
  forall i acc,
    rfind_from c s i acc = acc
    \/ (i <= rfind_from c s i acc
        /\ nth_error s (Z.to_nat (rfind_from c s i acc - i)) = Some c).
Proof.
  induction s as [| x s IH]; intros i acc; [now left |].
  simpl.
  destruct (IH (i + 1) (if Ascii.eqb x c then i else acc)) as [Heq | [Hle Hnth]].
  - rewrite Heq. destruct (Ascii.eqb_spec x c) as [-> | _]; [right | now left].
    split; [lia |]. now rewrite Z.sub_diag.
  - right. split; [lia |].
    replace (Z.to_nat (rfind_from c s (i + 1)
                         (if Ascii.eqb x c then i else acc) - i))
      with (S (Z.to_nat (rfind_from c s (i + 1)
                           (if Ascii.eqb x c then i else acc) - (i + 1))))
      by lia.
    exact Hnth.
Qed.

Lemma rfind_hit (c : ascii) (s : text) :
  0 <= rfind c s -> nth_error s (Z.to_nat (rfind c s)) = Some c.
Proof.
  intros Hpos. unfold rfind in *.
  destruct (rfind_from_hit c s 0 (-1)) as [Heq | [_ Hnth]]; [lia |].
  now rewrite Z.sub_0_r in Hnth.
Qed.

(** The character at the best ending is a sentence mark. *)
Lemma best_ending_hit (s : text) :
  0 <= best_ending s ->
  exists p, nth_error s (Z.to_nat (best_ending s)) = Some p
            /\ In p ["."%char; "?"%char; "!"%char].
Proof.
  unfold best_ending, max3. intros Hpos.
  destruct (Z.max_spec (rfind "."%char s) (rfind "?"%char s)) as [[_ H1] | [_ H1]];
    destruct (Z.max_spec (Z.max (rfind "."%char s) (rfind "?"%char s))
                         (rfind "!"%char s)) as [[_ H2] | [_ H2]];
    rewrite H2 in *; try rewrite H1 in *.
  - exists "!"%char. split; [now apply rfind_hit | simpl; tauto].
  - exists "?"%char. split; [now apply rfind_hit | simpl; tauto].
  - exists "!"%char. split; [now apply rfind_hit | simpl; tauto].
  - exists "."%char. split; [now apply rfind_hit | simpl; tauto].
Qed.

Lemma firstn_snoc_nth (s : text) (n : nat) (p : ascii) :
  nth_error s n = Some p -> firstn (S n) s = firstn n s ++ [p].
Proof.
  revert s. induction n as [| n IH]; intros [| x s] H; try discriminate.
  - injection H as ->. reflexivity.
  - simpl in H. rewrite firstn_cons, (IH s H). reflexivity.
Qed.

Lemma nth_error_firstn_lt (s : text) (n m : nat) :
  (n < m)%nat -> nth_error (firstn m s) n = nth_error s n.
Proof.
  revert s m. induction n as [| n IH]; intros [| x s] [| m] H;
    try reflexivity; try lia.
  simpl. apply IH. lia.
Qed.

Lemma enforce_long_len (t : text) (max_chars : Z) :
  0 <= max_chars -> len t > max_chars ->
  len (_enforce_character_limit t max_chars) <= max_chars.
Proof.
  intros Hmax Hlong. rewrite enforce_long by exact Hlong.
  pose proof (enforce_cut_len t max_chars Hmax Hlong).
  pose proof (cleaned_len_le (enforce_cut t max_chars)).
  destruct (Z.ltb_spec (len (cleaned (enforce_cut t max_chars)))
                       (max_chars - 50)); [| lia].
  rewrite len_app, continuation_note_len. lia.
Qed.

Lemma enforce_fit (t : text) (max_chars : Z) :
  len t <= max_chars -> _enforce_character_limit t max_chars = t.
Proof.
  intros Hfit. unfold _enforce_character_limit.
  destruct (Z.leb_spec (len t) max_chars); [reflexivity | lia].
Qed.

(** X1: enforcing a budget twice is enforcing it once. *)
Theorem enforce_idempotent (t : text) (max_chars : Z) :
  0 <= max_chars ->
  _enforce_character_limit (_enforce_character_limit t max_chars) max_chars
    = _enforce_character_limit t max_chars.
Proof.
  intros Hmax. destruct (Z.le_gt_cases (len t) max_chars) as [Hfit | Hlong].
  - rewrite (enforce_fit t max_chars Hfit). now apply enforce_fit.
  - apply enforce_fit. apply enforce_long_len; lia.
Qed.

Lemma enforce_idempotent_witness :
  _enforce_character_limit
    (_enforce_character_limit (str "Ship small. Ship often! Measure it") 30)
    30
  = _enforce_character_limit (str "Ship small. Ship often! Measure it") 30.
Proof. apply enforce_idempotent. lia. Defined.

(** X2: a cut at a sentence end: when the rightmost sentence mark of the first
    [max_chars] characters lies less than 200 characters before the budget,
    and the text up to it has no hashtag fragment line, the result is the
    text up to and including that mark, followed by the continuation note
    when more than 50 characters of the budget are left. *)
Theorem enforce_cuts_at_sentence_end (t : text) (max_chars : Z) :
  0 <= max_chars -> len t > max_chars ->
  max_chars - 200 < best_ending (slice_to t max_chars) ->
  0 <= best_ending (slice_to t max_chars) ->
  forallb (fun line => negb (incomplete_hashtag line))
          (split_on nl
             (slice_to t (best_ending (slice_to t max_chars) + 1))) = true ->
  (exists body p,
      slice_to t (best_ending (slice_to t max_chars) + 1) = body ++ [p]
      /\ In p ["."%char; "?"%char; "!"%char])
  /\ _enforce_character_limit t max_chars
     = slice_to t (best_ending (slice_to t max_chars) + 1)
       ++ (if best_ending (slice_to t max_chars) + 1 <? max_chars - 50
           then continuation_note else []).
Proof.
  intros Hmax Hlong Hnear Hpos Hlines.
  pose proof (best_ending_bounds (slice_to t max_chars)) as Hb.
  assert (Htr : len (slice_to t max_chars) = max_chars)
    by (rewrite slice_to_len; lia).
  set (b := best_ending (slice_to t max_chars)) in *.
  split.
  - destruct (best_ending_hit (slice_to t max_chars) Hpos) as (p & Hp & Hin).
    fold b in Hp. exists (firstn (Z.to_nat b) t), p. split; [| exact Hin].
    unfold slice_to in *.
    destruct (Z.ltb_spec max_chars 0); [lia |].
    destruct (Z.ltb_spec (b + 1) 0); [lia |].
    rewrite nth_error_firstn_lt in Hp by lia.
    replace (Z.to_nat (b + 1)) with (S (Z.to_nat b)) by lia.
    now apply firstn_snoc_nth.
  - rewrite enforce_long by exact Hlong. unfold enforce_cut. fold b.
    destruct (Z.gtb_spec b (max_chars - 200)); [| lia].
    rewrite (cleaned_unchanged _ Hlines).
    rewrite slice_to_len by lia.
    replace (Z.min (b + 1) (len t)) with (b + 1) by lia.
    destruct (b + 1 <? max_chars - 50); [reflexivity | now rewrite app_nil_r].
Qed.

Lemma enforce_cuts_at_sentence_end_witness :
  _enforce_character_limit (str "Ship small. Ship often! Measure it") 30
  = str "Ship small. Ship often!".
Proof.
  destruct (enforce_cuts_at_sentence_end
              (str "Ship small. Ship often! Measure it") 30) as [_ H].
  - lia.
  - vm_compute. reflexivity.
  - vm_compute. reflexivity.
  - vm_compute. discriminate.
  - vm_compute. reflexivity.
  - rewrite H. vm_compute. reflexivity.
Defined.

(** X3: a hard cut: when no sentence mark lies in the last 200 characters of the
    budget, and the first [max_chars] characters have no hashtag fragment
    line, the result is exactly those characters, without continuation
    note. *)
Theorem enforce_hard_cut (t : text) (max_chars : Z) :
  0 <= max_chars -> len t > max_chars ->
  best_ending (slice_to t max_chars) <= max_chars - 200 ->
  forallb (fun line => negb (incomplete_hashtag line))
          (split_on nl (slice_to t max_chars)) = true ->
  _enforce_character_limit t max_chars = slice_to t max_chars
  /\ len (_enforce_character_limit t max_chars) = max_chars.
Proof.
  intros Hmax Hlong Hfar Hlines.
  assert (Htr : len (slice_to t max_chars) = max_chars)
    by (rewrite slice_to_len; lia).
  assert (Heq : _enforce_character_limit t max_chars = slice_to t max_chars).
  { rewrite enforce_long by exact Hlong. unfold enforce_cut.
    destruct (Z.gtb_spec (best_ending (slice_to t max_chars))
                         (max_chars - 200)); [lia |].
    rewrite (cleaned_unchanged _ Hlines), Htr.
    destruct (Z.ltb_spec max_chars (max_chars - 50)); [lia | reflexivity]. }
  now rewrite Heq.
Qed.

Lemma enforce_hard_cut_witness :
  len (_enforce_character_limit (repeat "a"%char 300) 250) = 250.
Proof.
  apply (enforce_hard_cut (repeat "a"%char 300) 250).
  - lia.
  - vm_compute. reflexivity.
  - vm_compute. discriminate.
  - vm_compute. reflexivity.
Defined.

(** X4: a budget below 199 with no sentence mark within it: the index [-1] of
    the missing mark passes the test of the cut, and all of the text is
    dropped; what is returned is the continuation note alone, or nothing
    when the budget is 50 or less. *)
Theorem enforce_small_budget_drops_text (t : text) (max_chars : Z) :
  0 <= max_chars < 199 -> len t > max_chars ->
  ~ In "."%char (slice_to t max_chars) ->
  ~ In "?"%char (slice_to t max_chars) ->
  ~ In "!"%char (slice_to t max_chars) ->
  _enforce_character_limit t max_chars
    = if 50 <? max_chars then continuation_note else [].
Proof.
  intros Hmax Hlong Hp Hq He.
  rewrite enforce_long by exact Hlong. unfold enforce_cut, best_ending.
  rewrite !rfind_absent by assumption.
  change (max3 (-1) (-1) (-1)) with (-1).
  destruct (Z.gtb_spec (-1) (max_chars - 200)); [| lia].
  change (slice_to t (-1 + 1)) with (@nil ascii).
  change (cleaned []) with (@nil ascii). change (len []) with 0.
  destruct (Z.ltb_spec 0 (max_chars - 50)), (Z.ltb_spec 50 max_chars);
    try lia; reflexivity.
Qed.

Lemma enforce_small_budget_drops_text_witness :
  _enforce_character_limit (str "no sentence mark anywhere in this text") 30
    = [].
Proof.
  apply (enforce_small_budget_drops_text _ 30).
  - lia.
  - vm_compute. reflexivity.
  - vm_compute. intuition discriminate.
  - vm_compute. intuition discriminate.
  - vm_compute. intuition discriminate.
Defined.

Lemma cleaned_lines (cut line : text) :
  In line (split_on nl (cleaned cut)) -> incomplete_hashtag line = false.
Proof.
  unfold cleaned. set (kept := filter _ _). intros Hin.
  assert (Hkept : forall k, In k kept ->
            incomplete_hashtag k = false /\ ~ In nl k).
  { intros k Hk. unfold kept in Hk. apply filter_In in Hk as [Hk Hf].
    split; [now apply negb_true_iff in Hf |].
    pose proof (split_on_lines_no_sep nl cut) as Hall.
    rewrite Forall_forall in Hall. now apply Hall. }
  destruct kept as [| k ks] eqn:Hk.
  - destruct Hin as [<- | []]. reflexivity.
  - rewrite split_on_join in Hin.
    + now apply Hkept.
    + discriminate.
    + apply Forall_forall. intros l Hl. now apply Hkept.
Qed.

(** X5: after a truncation no line of the result, wherever it stands, is a
    hashtag fragment shorter than three characters. *)
Theorem enforce_truncated_no_fragment_line (t : text) (max_chars : Z)
        (line : text) :
  len t > max_chars ->
  In line (split_on nl (_enforce_character_limit t max_chars)) ->
  incomplete_hashtag line = false.
Proof.
  intros Hlong. rewrite (enforce_long t max_chars Hlong).
  destruct (len (cleaned (enforce_cut t max_chars)) <? max_chars - 50).
  - change continuation_note
      with (nl :: nl :: str "[Content continued in comments...]").
    rewrite split_on_app_sep. intros Hin.
    apply in_app_or in Hin as [Hin | Hin]; [now apply cleaned_lines in Hin |].
    destruct Hin as [<- | [<- | []]]; reflexivity.
  - apply cleaned_lines.
Qed.

Lemma enforce_truncated_no_fragment_line_witness :
  incomplete_hashtag (str "Ship often.") = false.
Proof.
  apply (enforce_truncated_no_fragment_line
           (str "Ship small.
#a
Ship often. Then measure it all") 28).
  - vm_compute. reflexivity.
  - vm_compute. right. left. reflexivity.
Defined.

End EnforcerShape.

(** ** More on generation runs *)

Section RunOutcomes.

Variable complete : nat -> completion_request -> api_result.

Lemma enforce_default_len (t : text) :
  len (_enforce_character_limit t default_max_chars) <= 2950.
Proof.
  unfold default_max_chars.
  destruct (Z.le_gt_cases (len t) 2950) as [Hfit | Hlong].
  - now rewrite enforce_fit.
  - apply enforce_long_len; lia.
Qed.

Lemma generate_with_groq_log (prompt : text) (self : service) :
  List.length (api_log (snd (_generate_with_groq complete prompt self)))
    = S (List.length (api_log self)).
Proof.
  destruct (generate_with_groq_state complete prompt self) as (r & -> & _).
  cbn [api_log]. rewrite length_app. simpl. lia.
Qed.

Lemma is_model_error_prefix (msg : text) :
  is_model_error (api_error_prefix ++ msg) = is_model_error msg.
Proof.
  unfold is_model_error, lower, api_error_prefix.
  rewrite map_app. cbn. reflexivity.
Qed.

Lemma is_rate_limit_prefix (msg : text) :
  is_rate_limit (api_error_prefix ++ msg) = is_rate_limit msg.
Proof.
  unfold is_rate_limit, lower, api_error_prefix.
  rewrite map_app. cbn. reflexivity.
Qed.

(** X9: the prefix [_generate_with_groq] puts before the message of the provider
    never changes how the handler classifies the error. *)
Theorem error_class_unchanged_by_prefix (msg : text) :
  is_model_error (api_error_prefix ++ msg) = is_model_error msg
  /\ is_rate_limit (api_error_prefix ++ msg) = is_rate_limit msg.
Proof.
  split; [apply is_model_error_prefix | apply is_rate_limit_prefix].
Qed.


(** X11: an error that is neither a model error nor a rate limit comes out as it
    is, after a single request and with the model unchanged. *)
Theorem other_errors_propagate
    (topic : text) (tone : PostTone) (length : PostLength) (hashtags : bool)
    (target_audience call_to_action : option text) (rnd : nat)
    (self : service) (e : text) (self1 : service) :
  _generate_with_groq complete
    (prompt_of topic tone length hashtags target_audience call_to_action rnd)
    self = (Raise e, self1) ->
  is_model_error e = false ->
  is_rate_limit e = false ->
  generate_post_content complete topic tone length hashtags target_audience
                        call_to_action rnd self = (Raise e, self1)
  /\ model_name self1 = model_name self
  /\ List.length (api_log self1) = S (List.length (api_log self)).
Proof.
  intros H1 Hmodel Hrate.
  rewrite (run_other_error complete _ _ _ _ _ _ _ _ e self1 H1 Hmodel).
  unfold handle_rate_limit. rewrite Hrate. split; [reflexivity |].
  split; [exact (generate_with_groq_model complete _ _ _ _ H1) |].
  pose proof (generate_with_groq_log
                (prompt_of topic tone length hashtags target_audience
                           call_to_action rnd) self) as Hlog.
  now rewrite H1 in Hlog.
Qed.

(** X12: a response without choices is an error of its own: the run raises
    "Groq API error: Empty response from Groq API" after one request, with no
    retry and no change of model. *)
Theorem empty_response_raises
    (topic : text) (tone : PostTone) (length : PostLength) (hashtags : bool)
    (target_audience call_to_action : option text) (rnd : nat)
    (self : service) :
  (forall request,
      complete (List.length (api_log self)) request = Response []) ->
  fst (generate_post_content complete topic tone length hashtags
         target_audience call_to_action rnd self)
    = Raise (str "Groq API error: Empty response from Groq API")
  /\ model_name
       (snd (generate_post_content complete topic tone length hashtags
               target_audience call_to_action rnd self))
     = model_name self
  /\ List.length
       (api_log
          (snd (generate_post_content complete topic tone length hashtags
                  target_audience call_to_action rnd self)))
     = S (List.length (api_log self)).
Proof.
  intros Hempty.
  destruct (_generate_with_groq complete
              (prompt_of topic tone length hashtags target_audience
                         call_to_action rnd) self) as [res self1] eqn:H1.
  assert (Hres : res = Raise (str "Groq API error: Empty response from Groq API")).
  { unfold _generate_with_groq in H1. rewrite Hempty in H1.
    now injection H1 as <- _. }
  subst res.
  rewrite (run_other_error complete _ _ _ _ _ _ _ _ _ self1 H1)
    by reflexivity.
  cbn [handle_rate_limit fst snd]. split; [reflexivity |].
  split; [exact (generate_with_groq_model complete _ _ _ _ H1) |].
  pose proof (generate_with_groq_log
                (prompt_of topic tone length hashtags target_audience
                           call_to_action rnd) self) as Hlog.
  now rewrite H1 in Hlog.
Qed.

(** X13: what a run returns is within the budget of 2950 characters, unless it is
    the rate-limit notice (whose length follows the topic). *)
Theorem generate_post_content_returns_within_budget
    (topic : text) (tone : PostTone) (length : PostLength) (hashtags : bool)
    (target_audience call_to_action : option text) (rnd : nat)
    (self : service) (content : text) :
  fst (generate_post_content complete topic tone length hashtags
         target_audience call_to_action rnd self) = Return content ->
  len content <= 2950
  \/ content = rate_limit_notice topic (model_name self).
Proof.
  destruct (_generate_with_groq complete
              (prompt_of topic tone length hashtags target_audience
                         call_to_action rnd) self)
    as [[generated | e] self1] eqn:H1.
  - unfold generate_post_content. fold (prompt_of topic tone length hashtags
      target_audience call_to_action rnd). rewrite H1. cbn [fst].
    intros Heq. injection Heq as <-. left. apply enforce_default_len.
  - pose proof (generate_with_groq_model complete _ _ _ _ H1) as Hm1.
    destruct (is_model_error e) eqn:He.
    + rewrite (run_model_error complete _ _ _ _ _ _ _ _ e self1 H1 He).
      destruct (_generate_with_groq complete _ (retry_state self1))
        as [[generated | fe] self2]; cbn [fst].
      * intros Heq. injection Heq as <-. left. apply enforce_default_len.
      * unfold handle_rate_limit. destruct (is_rate_limit e); cbn [fst];
          [| discriminate].
        intros Heq. injection Heq as <-. right.
        cbn [set_model_name model_name]. now rewrite Hm1.
    + rewrite (run_other_error complete _ _ _ _ _ _ _ _ e self1 H1 He).
      unfold handle_rate_limit. destruct (is_rate_limit e); cbn [fst];
        [| discriminate].
      intros Heq. injection Heq as <-. right. now rewrite Hm1.
Qed.

(** X14: [enhance_content] has no fallback and no rate-limit notice: whatever the
    message of the provider, model error or rate limit included, it is
    raised with the prefix of [_generate_with_groq], after one request; and
    a text that is returned is within the budget of 2950 characters. *)
Theorem enhance_content_outcome (content : text) (self : service)
        (answer : api_result) :
  (forall request,
      complete (List.length (api_log self)) request = answer) ->
  model_name (snd (enhance_content complete content self)) = model_name self
  /\ List.length (api_log (snd (enhance_content complete content self)))
     = S (List.length (api_log self))
  /\ match answer with
     | ApiException msg =>
         fst (enhance_content complete content self)
           = Raise (api_error_prefix ++ msg)
     | Response [] =>
         fst (enhance_content complete content self)
           = Raise (str "Groq API error: Empty response from Groq API")
     | Response (first :: _) =>
         fst (enhance_content complete content self)
           = Return (_enforce_character_limit
                       (fst (_clean_response (strip first)))
                       default_max_chars)
         /\ len (_enforce_character_limit
                   (fst (_clean_response (strip first))) default_max_chars)
            <= 2950
     end.
Proof.
  intros Hanswer. unfold enhance_content.
  set (prompt := _ ++ content ++ _).
  pose proof (generate_with_groq_log prompt self) as Hlog.
  destruct (_generate_with_groq complete prompt self)
    as [res self1] eqn:H1.
  pose proof (generate_with_groq_model complete _ _ _ _ H1) as Hm.
  cbn [snd] in Hlog.
  assert (Hstate : model_name (snd (match res with
                     | Return enhanced =>
                         (Return (_enforce_character_limit enhanced
                                    default_max_chars), self1)
                     | Raise e => (Raise e, self1)
                     end)) = model_name self
                   /\ List.length (api_log (snd (match res with
                     | Return enhanced =>
                         (Return (_enforce_character_limit enhanced
                                    default_max_chars), self1)
                     | Raise e => (Raise e, self1)
                     end))) = S (List.length (api_log self)))
    by (destruct res; cbn [snd]; split; assumption).
  destruct Hstate as [Hs1 Hs2]. split; [exact Hs1 |]. split; [exact Hs2 |].
  unfold _generate_with_groq in H1. rewrite Hanswer in H1.
  destruct answer as [[| first rest] | msg]; injection H1 as <- _;
    cbn [fst]; try reflexivity.
  split; [reflexivity | apply enforce_default_len].
Qed.

End RunOutcomes.

Section RunOutcomeExamples.

Lemma other_errors_propagate_witness :
  fst (example_run (answers service_unavailable fresh_post))
    = Raise (api_error_prefix ++ unavailable_message).
Proof.
  edestruct (other_errors_propagate (answers service_unavailable fresh_post)
               example_topic CASUAL SHORT true None None 0%nat (__init__ None))
    as [Hrun _].
  - reflexivity.
  - vm_compute. reflexivity.
  - vm_compute. reflexivity.
  - unfold example_run. now rewrite Hrun.
Defined.

Lemma empty_response_raises_witness :
  fst (example_run (fun _ _ => Response []))
    = Raise (str "Groq API error: Empty response from Groq API").
Proof.
  apply (empty_response_raises (fun _ _ => Response [])).
  intros request. reflexivity.
Defined.

Lemma generate_post_content_returns_within_budget_witness :
  len (str "Remote teams thrive on written updates.") <= 2950
  \/ str "Remote teams thrive on written updates."
     = rate_limit_notice example_topic (model_name (__init__ None)).
Proof.
  apply (generate_post_content_returns_within_budget
           (answers fresh_post fresh_post)
           example_topic CASUAL SHORT true None None 0%nat (__init__ None)).
  vm_compute. reflexivity.
Defined.

Lemma enhance_content_outcome_witness :
  fst (enhance_content (fun _ _ => too_many_requests)
         (str "Ship small.") (__init__ None))
    = Raise (api_error_prefix ++ str "429 too many requests").
Proof.
  destruct (enhance_content_outcome (fun _ _ => too_many_requests)
              (str "Ship small.") (__init__ None) too_many_requests)
    as (_ & _ & H).
  - intros request. reflexivity.
  - exact H.
Defined.

End RunOutcomeExamples.

(** ** Hashtag generation *)

Section Hashtags.

Variable complete : nat -> completion_request -> api_result.

(** The words [split()] returns are not empty and hold no whitespace. *)
Lemma split_ws_from_words (s : text) :
  forall cur word,
    (forall c, In c cur -> isspace c = false) ->
    In word (split_ws_from cur s) ->
    word <> [] /\ forall c, In c word -> isspace c = false.
Proof.
  induction s as [| x s IH]; intros cur word Hcur Hin.
  - destruct cur as [| a cur]; [contradiction |].
    destruct Hin as [<- | []]. split.
    + intros H. apply (f_equal (@rev ascii)) in H.
      rewrite rev_involutive in H. discriminate.
    + intros c Hc. apply Hcur. now apply in_rev.
  - simpl in Hin. destruct (isspace x) eqn:Hx.
    + destruct cur as [| a cur].
      * apply (IH [] word); [intros c [] | exact Hin].
      * destruct Hin as [<- | Hin].
        -- split.
           ++ intros H. apply (f_equal (@rev ascii)) in H.
              rewrite rev_involutive in H. discriminate.
           ++ intros c Hc. apply Hcur. now apply in_rev.
        -- apply (IH [] word); [intros c [] | exact Hin].
    + apply (IH (x :: cur) word); [| exact Hin].
      intros c [<- | Hc]; [exact Hx | now apply Hcur].
Qed.

Lemma list_slice_to_In {A} (l : list A) (n : Z) (x : A) :
  In x (list_slice_to l n) -> In x l.
Proof.
  unfold list_slice_to. intros Hin.
  destruct (n <? 0);
    match type of Hin with
    | In _ (firstn ?k _) => rewrite <- (firstn_skipn k l)
    end; apply in_or_app; now left.
Qed.

Lemma list_slice_to_length {A} (l : list A) (n : Z) :
  0 <= n -> Z.of_nat (List.length (list_slice_to l n)) <= n.
Proof.
  intros Hn. unfold list_slice_to.
  destruct (Z.ltb_spec n 0); [lia |].
  rewrite length_firstn. lia.
Qed.

(** X15: every hashtag [generate_hashtags] returns starts with '#' and holds no
    whitespace, and for a count that is not negative there are at most
    [count] of them. *)
Theorem generate_hashtags_tags (content : text) (count : Z) (self : service)
        (tags : list text) :
  fst (generate_hashtags complete content count self) = Return tags ->
  (forall tag, In tag tags ->
               startswith (str "#") tag = true
               /\ forall c, In c tag -> isspace c = false)
  /\ (0 <= count -> Z.of_nat (List.length tags) <= count).
Proof.
  unfold generate_hashtags.
  destruct (_generate_with_groq complete _ self) as [[response | e] self1];
    cbn [fst]; [| discriminate].
  intros Heq. injection Heq as <-. split.
  - intros tag Hin. apply list_slice_to_In, filter_In in Hin as [Hword Hhash].
    split; [exact Hhash |].
    unfold split_ws in Hword.
    apply split_ws_from_words in Hword as [_ Hno]; [exact Hno |].
    intros c [].
  - apply list_slice_to_length.
Qed.

End Hashtags.

Section HashtagExamples.

Lemma generate_hashtags_tags_witness :
  (forall tag, In tag [str "#remote"; str "#work"] ->
               startswith (str "#") tag = true
               /\ forall c, In c tag -> isspace c = false)
  /\ (0 <= 2 -> Z.of_nat (List.length [str "#remote"; str "#work"]) <= 2).
Proof.
  apply (generate_hashtags_tags
           (fun _ _ => Response [str " #remote tags: #work
#async  "])
           (str "Remote teams thrive.") 2 (__init__ None)).
  vm_compute. reflexivity.
Defined.

End HashtagExamples.

(** ** The prompt *)

Section Prompt.

Lemma infix_app_l (a x y : text) : infix a x -> infix a (x ++ y).
Proof.
  intros (pre & post & ->). exists pre, (post ++ y).
  now rewrite <- !app_assoc.
Qed.

Lemma infix_app_r (a x y : text) : infix a y -> infix a (x ++ y).
Proof.
  intros (pre & post & ->). exists (x ++ pre), post.
  now rewrite <- !app_assoc.
Qed.

(** Looks for a part among the parts a text is put together from. *)
Ltac find_part :=
  solve [ apply infix_refl
        | apply infix_app_l; find_part
        | apply infix_app_r; find_part ].

(** The first key of the table that occurs in the topic decides. *)
Lemma select_guidance_first_match (before after : list (text * text))
      (key guidance topic_lower default : text) :
  (forall kv, In kv before -> contains (fst kv) topic_lower = false) ->
  contains key topic_lower = true ->
  select_guidance (before ++ (key, guidance) :: after) topic_lower default
    = guidance.
Proof.
  intros Hbefore Hkey. induction before as [| [k g] before IH]; simpl.
  - now rewrite Hkey.
  - pose proof (Hbefore (k, g) (or_introl eq_refl)) as Hk.
    cbn [fst] in Hk. rewrite Hk.
    apply IH. intros kv Hin. apply Hbefore. now right.
Qed.

Lemma select_guidance_no_match (table : list (text * text))
      (topic_lower default : text) :
  (forall kv, In kv table -> contains (fst kv) topic_lower = false) ->
  select_guidance table topic_lower default = default.
Proof.
  intros Hnone. induction table as [| [k g] table IH]; simpl; [reflexivity |].
  pose proof (Hnone (k, g) (or_introl eq_refl)) as Hk.
  cbn [fst] in Hk. rewrite Hk.
  apply IH. intros kv Hin. apply Hnone. now right.
Qed.

Lemma build_prompt_contains_guidance (topic : text) (tone : PostTone)
      (length : PostLength) (hashtags : bool)
      (target_audience call_to_action : option text) (rnd : nat) :
  contains
    (select_guidance topic_expertise (lower topic)
       (str "Provide detailed, expert-level insights with specific examples, tools, companies, and actionable advice"))
    (_build_prompt topic tone length hashtags target_audience call_to_action
                   rnd) = true.
Proof.
  apply infix_contains. unfold _build_prompt. cbv zeta.
  destruct (truthy target_audience), (truthy call_to_action), hashtags;
    find_part.
Qed.

(** X16: the guidance is that of the first keyword of the table, in its
    order, that occurs in the topic, compared without regard to case: a later
    keyword that occurs as well is not looked at.  The prompt opens with the
    heading and the requirement lines, and its "- Focus: " line holds that
    guidance and nothing else. *)
Theorem build_prompt_first_keyword_wins
    (before after : list (text * text)) (key guidance : text)
    (topic : text) (tone : PostTone) (length : PostLength) (hashtags : bool)
    (target_audience call_to_action : option text) (rnd : nat) :
  topic_expertise = before ++ (key, guidance) :: after ->
  (forall kv, In kv before -> contains (fst kv) (lower topic) = false) ->
  contains key (lower topic) = true ->
  select_guidance topic_expertise (lower topic)
    (str "Provide detailed, expert-level insights with specific examples, tools, companies, and actionable advice")
    = guidance
  /\ exists rest,
       _build_prompt topic tone length hashtags target_audience
                     call_to_action rnd
       = str "You are a recognized expert writing a LinkedIn post about "
         ++ ["034"%char] ++ topic ++ ["034"%char] ++ str ".

CRITICAL REQUIREMENTS:
- MAXIMUM 2900 characters total (LinkedIn limit is 3000, stay under for safety)
- Length: " ++ length_specs length ++ str "
- Tone: " ++ tone_specs tone ++ str "
- Focus: " ++ guidance ++ str "
- Include specific company names, tools, statistics, or real examples
- Provide actionable insights professionals can immediately use
- Use professional LinkedIn formatting with line breaks
- Sound like a subject matter expert who has deep hands-on experience

IMPORTANT: Keep the post concise and within LinkedIn's character limit. Quality over quantity." ++ rest.
Proof.
  intros Htable Hbefore Hkey.
  assert (Hsel : select_guidance topic_expertise (lower topic)
                   (str "Provide detailed, expert-level insights with specific examples, tools, companies, and actionable advice")
                 = guidance).
  { rewrite Htable. now apply select_guidance_first_match. }
  split; [exact Hsel |].
  unfold _build_prompt. cbv zeta. rewrite Hsel.
  destruct (truthy target_audience), (truthy call_to_action), hashtags;
    repeat rewrite <- app_assoc; eexists; reflexivity.
Qed.

Lemma build_prompt_first_keyword_wins_witness :
  select_guidance topic_expertise
    (lower (str "Machine Learning basics for programming teams"))
    (str "Provide detailed, expert-level insights with specific examples, tools, companies, and actionable advice")
  = str "Explain ML types (supervised, unsupervised, reinforcement), specific tools (TensorFlow, PyTorch, scikit-learn), real-world applications, data requirements, career paths, and business impact".
Proof.
  destruct (build_prompt_first_keyword_wins
              (firstn 2 topic_expertise) (skipn 3 topic_expertise)
              (str "machine learning")
              (str "Explain ML types (supervised, unsupervised, reinforcement), specific tools (TensorFlow, PyTorch, scikit-learn), real-world applications, data requirements, career paths, and business impact")
              (str "Machine Learning basics for programming teams")
              PROFESSIONAL MEDIUM true None None 0%nat) as [Hsel _].
  - reflexivity.
  - intros kv [<- | [<- | []]]; vm_compute; reflexivity.
  - vm_compute. reflexivity.
  - exact Hsel.
Defined.

(** X17: a topic with none of the keywords gets the generic guidance. *)
Theorem build_prompt_generic_guidance
    (topic : text) (tone : PostTone) (length : PostLength) (hashtags : bool)
    (target_audience call_to_action : option text) (rnd : nat) :
  (forall kv, In kv topic_expertise ->
              contains (fst kv) (lower topic) = false) ->
  contains
    (str "Provide detailed, expert-level insights with specific examples, tools, companies, and actionable advice")
    (_build_prompt topic tone length hashtags target_audience call_to_action
                   rnd) = true.
Proof.
  intros Hnone.
  rewrite <- (select_guidance_no_match topic_expertise (lower topic) _ Hnone)
    at 1.
  apply build_prompt_contains_guidance.
Qed.

Lemma build_prompt_generic_guidance_witness :
  contains
    (str "Provide detailed, expert-level insights with specific examples, tools, companies, and actionable advice")
    (_build_prompt (str "remote work tips") CASUAL SHORT true None None 0%nat)
    = true.
Proof.
  apply build_prompt_generic_guidance.
  intros kv Hin. repeat (destruct Hin as [<- | Hin]; [vm_compute; reflexivity |]).
  destruct Hin.
Defined.

(** X18: the optional fields of a request: a target audience and a call to action
    are written into the prompt when they are given and not empty; without a
    call to action one of the four questions about the topic is asked,
    whatever index was drawn; the hashtag line is there when hashtags are
    asked for. *)
Theorem build_prompt_request_fields
    (topic : text) (tone : PostTone) (length : PostLength) (hashtags : bool)
    (target_audience call_to_action : option text) (rnd : nat) :
  let prompt := _build_prompt topic tone length hashtags target_audience
                              call_to_action rnd in
  contains (length_specs length) prompt = true
  /\ contains (tone_specs tone) prompt = true
  /\ (truthy target_audience = true ->
      contains (str "
- Target audience: " ++ text_of target_audience) prompt = true)
  /\ (truthy call_to_action = true ->
      contains (str "
- End with: " ++ text_of call_to_action) prompt = true)
  /\ (truthy call_to_action = false ->
      exists question,
        In question (cta_options topic)
        /\ contains (str "
- End with this question: " ++ question) prompt = true)
  /\ (hashtags = true ->
      contains (str "
- Include 3-4 specific hashtags related to " ++ topic
                ++ str " (keep hashtags short)") prompt = true).
Proof.
  intros prompt. unfold prompt, _build_prompt. cbv zeta.
  repeat split.
  - apply infix_contains.
    destruct (truthy target_audience), (truthy call_to_action), hashtags;
      find_part.
  - apply infix_contains.
    destruct (truthy target_audience), (truthy call_to_action), hashtags;
      find_part.
  - intros ->. apply infix_contains.
    destruct (truthy call_to_action), hashtags; find_part.
  - intros ->. apply infix_contains.
    destruct (truthy target_audience), hashtags; find_part.
  - intros ->. exists (nth (rnd mod 4)%nat (cta_options topic) []). split.
    + apply nth_In. simpl List.length. apply Nat.mod_upper_bound. lia.
    + apply infix_contains.
      destruct (truthy target_audience), hashtags; find_part.
  - intros ->. apply infix_contains.
    destruct (truthy target_audience), (truthy call_to_action); find_part.
Qed.

End Prompt.

(** ** The publish layer *)

Section Publish.

Import LinkedInHttp.

Lemma checked_content_short (t : text) :
  len t <= 3000 -> checked_content t = t.
Proof.
  intros Hfit. unfold checked_content.
  destruct (Z.gtb_spec (len t) 3000); [lia | reflexivity].
Qed.

Lemma checked_content_long_len (t : text) :
  len t > 3000 -> len (checked_content t) <= 2950.
Proof.
  intros Hlong. rewrite (checked_content_long t Hlong).
  assert (Htr : len (slice_to t 2950) = 2950) by (rewrite slice_to_len; lia).
  pose proof (best_ending_bounds (slice_to t 2950)) as Hb.
  destruct (_ >? 2800); [| lia].
  rewrite slice_to_len by lia. lia.
Qed.

(** X19: whatever text it is given, [create_post] sends a prefix of it of at most
    3000 characters, and a text it has cut once it does not cut again. *)
Theorem create_post_text_bounded (content person_id : text) :
  len (share_commentary_text (create_post content person_id)) <= 3000
  /\ (exists rest,
         content = share_commentary_text (create_post content person_id)
                   ++ rest)
  /\ share_commentary_text
       (create_post (share_commentary_text (create_post content person_id))
                    person_id)
     = share_commentary_text (create_post content person_id).
Proof.
  unfold create_post. cbn [share_commentary_text].
  destruct (Z.le_gt_cases (len content) 3000) as [Hfit | Hlong].
  - rewrite !(checked_content_short content Hfit).
    repeat split; [exact Hfit | now exists []; rewrite app_nil_r].
  - pose proof (checked_content_long_len content ltac:(lia)) as Hlen.
    repeat split; [lia | |].
    + rewrite checked_content_long by lia.
      destruct (_ >? 2800); apply slice_to_prefix.
    + apply checked_content_short. lia.
Qed.

(** X20: a text that went through the enforcer, at any budget from 0 to 3000, is
    sent by [create_post] as it is. *)
Theorem create_post_keeps_enforced_text (t person_id : text) (max_chars : Z) :
  0 <= max_chars <= 3000 ->
  share_commentary_text
    (create_post (_enforce_character_limit t max_chars) person_id)
  = _enforce_character_limit t max_chars.
Proof.
  intros Hmax. unfold create_post. cbn [share_commentary_text].
  apply checked_content_short.
  destruct (Z.le_gt_cases (len t) max_chars) as [Hfit | Hlong].
  - rewrite enforce_fit by exact Hfit. lia.
  - pose proof (enforce_long_len t max_chars ltac:(lia) ltac:(lia)). lia.
Qed.

Lemma create_post_keeps_enforced_text_witness :
  share_commentary_text
    (create_post (_enforce_character_limit sentence_end_at_2850 2950)
                 (str "abc123"))
  = _enforce_character_limit sentence_end_at_2850 2950.
Proof. apply create_post_keeps_enforced_text. lia. Defined.

Lemma urn_prefix_len (p : text) : len (str "urn:li:person:" ++ p) = 14 + len p.
Proof. rewrite len_app. reflexivity. Qed.

(** X21: the author [create_post] sends always carries the prefix
    ["urn:li:person:"], once: an identifier that has it is left alone, and
    the author of a post is an identifier [create_post] leaves alone. *)
Theorem create_post_author_normalised (content person_id : text) :
  startswith (str "urn:li:person:") (author (create_post content person_id))
    = true
  /\ author (create_post content (author (create_post content person_id)))
     = author (create_post content person_id).
Proof.
  assert (Hhas : startswith (str "urn:li:person:")
                   (author (create_post content person_id)) = true).
  { unfold create_post. cbn [author].
    destruct (startswith (str "urn:li:person:") person_id) eqn:Hp;
      cbn [negb]; [exact Hp | apply startswith_app]. }
  split; [exact Hhas |].
  unfold create_post at 1. cbn [author]. now rewrite Hhas.
Qed.

(** X22: [create_article_post] puts the prefix before the identifier without
    looking at it: its author is the author of [create_post] exactly for
    the identifiers that do not carry the prefix yet. *)
Theorem article_author_agrees (title content person_id : text) :
  article_author (create_article_post title content person_id)
    = author (create_post content person_id)
  <-> startswith (str "urn:li:person:") person_id = false.
Proof.
  unfold create_article_post, create_post. cbn [article_author author].
  destruct (startswith (str "urn:li:person:") person_id); cbn [negb].
  - split; [| discriminate].
    intros Heq. apply (f_equal len) in Heq.
    rewrite urn_prefix_len in Heq. lia.
  - split; reflexivity.
Qed.

(** X23: [create_article_post] never shortens: title, blank line and content are
    sent in full, and the warning is logged exactly when they come to more
    than 3000 characters, at which length [create_post] would have cut. *)
Theorem create_article_post_not_truncated (title content person_id : text) :
  len (article_commentary_text (create_article_post title content person_id))
    = len title + 2 + len content
  /\ (article_warned (create_article_post title content person_id) = true
      <-> len title + 2 + len content > 3000)
  /\ (len content > 3000 ->
      len (share_commentary_text (create_post content person_id)) <= 2950
      /\ len (article_commentary_text
                (create_article_post title content person_id)) > 3000).
Proof.
  unfold create_article_post.
  cbn [article_commentary_text article_warned].
  assert (Hlen : len (title ++ [nl; nl] ++ content)
                 = len title + 2 + len content).
  { rewrite !len_app. change (len [nl; nl]) with 2. lia. }
  rewrite Hlen. repeat split.
  - destruct (Z.gtb_spec (len title + 2 + len content) 3000); [lia | discriminate].
  - intros H. destruct (Z.gtb_spec (len title + 2 + len content) 3000);
      [reflexivity | lia].
  - unfold create_post. cbn [share_commentary_text].
    now apply checked_content_long_len.
  - pose proof (len_nonneg title). lia.
Qed.

Section Http.

Variable post_ugc : post_data -> http_answer.
Variable delete_ugc : text -> http_answer.

(** X24: [create_post] returns exactly on the statuses 200 and 201; on every
    other status it raises a message that starts with
    "LinkedIn post creation failed: "; an exception of the HTTP client comes
    out as it is. *)
Theorem create_post_result_outcome (content person_id : text) :
  match post_ugc (create_post content person_id) with
  | HttpFailure msg =>
      create_post_result post_ugc content person_id = Raise msg
  | HttpResponse status body json_id =>
      (status = 200 \/ status = 201 ->
       create_post_result post_ugc content person_id = Return json_id)
      /\ (status <> 200 -> status <> 201 ->
          exists msg,
            create_post_result post_ugc content person_id = Raise msg
            /\ startswith (str "LinkedIn post creation failed: ") msg = true)
  end.
Proof.
  unfold create_post_result.
  destruct (post_ugc (create_post content person_id))
    as [status body json_id | msg]; [| reflexivity].
  split.
  - intros [-> | ->]; reflexivity.
  - intros H200 H201.
    destruct (Z.eqb_spec status 200); [contradiction |].
    destruct (Z.eqb_spec status 201); [contradiction |].
    cbn [orb negb].
    destruct (contains (str "text length") body
              && contains (str "exceeded") body);
      eexists; (split; [reflexivity | reflexivity]).
Qed.

(** X25: [delete_post] returns only [True], and only on the status 204: every
    other status, 200 included, raises. *)
Theorem delete_post_only_204 (post_id : text) (status : Z) (body : text)
        (json_id : option text) (result : bool) :
  delete_ugc post_id = HttpResponse status body json_id ->
  (delete_post delete_ugc post_id = Return result
   <-> status = 204 /\ result = true).
Proof.
  intros Hanswer. unfold delete_post. rewrite Hanswer.
  destruct (Z.eqb_spec status 204) as [-> | Hne].
  - split.
    + intros Heq. injection Heq as <-. now split.
    + intros [_ ->]. reflexivity.
  - split; [discriminate | intros [H _]; contradiction].
Qed.

End Http.

End Publish.

Section PublishExamples.

Import LinkedInHttp.

Lemma create_article_post_not_truncated_witness :
  len (share_commentary_text
         (create_post (repeat "a"%char 3001) (str "abc123"))) <= 2950
  /\ len (article_commentary_text
            (create_article_post (str "Title") (repeat "a"%char 3001)
                                 (str "abc123"))) > 3000.
Proof.
  apply (create_article_post_not_truncated (str "Title")
           (repeat "a"%char 3001) (str "abc123")).
  vm_compute. reflexivity.
Defined.

Lemma delete_post_only_204_witness :
  delete_post (fun _ => HttpResponse 204 [] None) (str "urn:li:share:1")
    = Return true.
Proof.
  apply (delete_post_only_204 (fun _ => HttpResponse 204 [] None)
           (str "urn:li:share:1") 204 [] None true).
  - reflexivity.
  - split; reflexivity.
Defined.

End PublishExamples.

(** ** The endpoints *)

Section Endpoints.

Import LinkedInHttp.

Variable complete : nat -> completion_request -> api_result.
Variable post_ugc : post_data -> http_answer.
Variable linkedin_person_id : text.

(** X26: [POST /generate-content] answers 400 exactly for a request without a
    topic, an empty one or one of whitespace only, and then nothing is sent
    to the provider: the service object is as before. *)
Theorem generate_content_requires_topic (request : Main.PostRequest)
        (rnd : nat) (groq_service : service) :
  (blank_topic request = true ->
   Main.generate_content complete request rnd groq_service
     = (Main.HTTPException 400 (str "Topic is required"), groq_service))
  /\ (blank_topic request = false ->
      forall detail,
        fst (Main.generate_content complete request rnd groq_service)
          <> Main.HTTPException 400 detail).
Proof.
  unfold blank_topic, Main.generate_content. split; intros Hblank.
  - now rewrite Hblank.
  - rewrite Hblank. intros detail.
    destruct (generate_post_content complete _ _ _ _ _ _ _ groq_service)
      as [[content | e] self1]; cbn [fst]; [discriminate |].
    intros Heq. injection Heq as Hcode _. discriminate.
Qed.

(** X27: [POST /generate-content] when the provider fails with a message that is
    not a model error: a rate-limit message gives the answer of a success,
    with the rate-limit notice for the stripped topic as generated content;
    any other message gives the status 500 with the message behind
    "Failed to generate content: " and the prefix of the service. *)
Theorem generate_content_on_provider_error (request : Main.PostRequest)
        (rnd : nat) (groq_service : service) (msg : text) :
  blank_topic request = false ->
  (forall r, complete (List.length (api_log groq_service)) r
             = ApiException msg) ->
  is_model_error msg = false ->
  fst (Main.generate_content complete request rnd groq_service)
  = if is_rate_limit msg
    then Main.Ok
           {| Main.generated_content :=
                rate_limit_notice (strip (text_of (Main.topic request)))
                                  (model_name groq_service);
              Main.generated_topic := Main.topic request;
              Main.generated_status := str "success" |}
    else Main.HTTPException 500
           (str "Failed to generate content: " ++ api_error_prefix ++ msg).
Proof.
  intros Hblank Hanswer Hmodel.
  unfold Main.generate_content. fold (blank_topic request). rewrite Hblank.
  set (topic := strip (text_of (Main.topic request))).
  destruct (_generate_with_groq complete
              (prompt_of topic (Main.tone request) (Main.length request)
                 (Main.include_hashtags request)
                 (Main.target_audience request)
                 (Main.call_to_action request) rnd) groq_service)
    as [res self1] eqn:H1.
  assert (Hres : res = Raise (api_error_prefix ++ msg)).
  { unfold _generate_with_groq in H1. rewrite Hanswer in H1.
    now injection H1 as <- _. }
  subst res.
  rewrite (run_other_error complete _ _ _ _ _ _ _ _ _ self1 H1)
    by now rewrite is_model_error_prefix.
  unfold handle_rate_limit. rewrite is_rate_limit_prefix.
  rewrite (generate_with_groq_model complete _ _ _ _ H1).
  now destruct (is_rate_limit msg).
Qed.


(** X29: [POST /post/create] without content, when generation hits a rate limit:
    the rate-limit notice is what [generate_post_content] returns, so the
    notice is the text handed to the publish layer, and on a successful
    publication the response reports it as the content of the post. *)
Theorem create_post_publishes_rate_limit_notice
        (request : Main.PostRequest) (rnd : nat) (groq_service : service)
        (topic msg : text) (status : Z) (body : text)
        (json_id : option text) :
  truthy (Main.content request) = false ->
  Main.topic request = Some topic ->
  (forall r, complete (List.length (api_log groq_service)) r
             = ApiException msg) ->
  is_model_error msg = false ->
  is_rate_limit msg = true ->
  post_ugc (create_post (rate_limit_notice topic (model_name groq_service))
                        linkedin_person_id)
    = HttpResponse status body json_id ->
  status = 200 \/ status = 201 ->
  fst (Main.create_post complete post_ugc linkedin_person_id request rnd
                        groq_service)
    = Main.Ok {| Main.success := true;
                 Main.post_id := json_id;
                 Main.response_content :=
                   rate_limit_notice topic (model_name groq_service);
                 Main.message := str "Post published successfully" |}.
Proof.
  intros Hcontent Htopic Hanswer Hmodel Hrate Hpost Hstatus.
  unfold Main.create_post. rewrite Hcontent, Htopic. cbn [negb].
  unfold generate_post_content_opt.
  destruct (_generate_with_groq complete
              (prompt_of topic (Main.tone request) (Main.length request)
                 (Main.include_hashtags request) None None rnd) groq_service)
    as [res self1] eqn:H1.
  assert (Hres : res = Raise (api_error_prefix ++ msg)).
  { unfold _generate_with_groq in H1. rewrite Hanswer in H1.
    now injection H1 as <- _. }
  subst res.
  rewrite (run_other_error complete _ _ _ _ _ _ _ _ _ self1 H1)
    by now rewrite is_model_error_prefix.
  unfold handle_rate_limit. rewrite is_rate_limit_prefix, Hrate.
  rewrite (generate_with_groq_model complete _ _ _ _ H1).
  unfold create_post_result. rewrite Hpost.
  destruct Hstatus as [-> | ->]; reflexivity.
Qed.

End Endpoints.

Section EndpointExamples.

Import LinkedInHttp.

Lemma generate_content_requires_topic_witness :
  Main.generate_content (fun _ _ => fresh_post)
    (example_request (Some (str "   ")) None) 0%nat (__init__ None)
  = (Main.HTTPException 400 (str "Topic is required"), __init__ None).
Proof.
  apply (generate_content_requires_topic (fun _ _ => fresh_post)).
  vm_compute. reflexivity.
Defined.

Lemma generate_content_on_provider_error_witness :
  fst (Main.generate_content (fun _ _ => too_many_requests)
         (example_request (Some (str " remote work tips ")) None) 0%nat
         (__init__ None))
  = Main.Ok
      {| Main.generated_content :=
           rate_limit_notice (str "remote work tips")
                             (str "llama-3.3-70b-versatile");
         Main.generated_topic := Some (str " remote work tips ");
         Main.generated_status := str "success" |}.
Proof.
  apply (generate_content_on_provider_error (fun _ _ => too_many_requests)
           (example_request (Some (str " remote work tips ")) None) 0%nat
           (__init__ None) (str "429 too many requests")).
  - vm_compute. reflexivity.
  - intros r. reflexivity.
  - vm_compute. reflexivity.
Defined.


Lemma create_post_publishes_rate_limit_notice_witness :
  fst (Main.create_post (fun _ _ => too_many_requests) created (str "abc123")
         (example_request (Some (str "remote work tips")) None) 0%nat
         (__init__ None))
  = Main.Ok {| Main.success := true;
               Main.post_id := Some (str "urn:li:share:1");
               Main.response_content :=
                 rate_limit_notice (str "remote work tips")
                                   (str "llama-3.3-70b-versatile");
               Main.message := str "Post published successfully" |}.
Proof.
  apply (create_post_publishes_rate_limit_notice
           (fun _ _ => too_many_requests) created (str "abc123")
           (example_request (Some (str "remote work tips")) None) 0%nat
           (__init__ None) (str "remote work tips")
           (str "429 too many requests") 201 []).
  - reflexivity.
  - reflexivity.
  - intros r. reflexivity.
  - vm_compute. reflexivity.
  - vm_compute. reflexivity.
  - reflexivity.
  - now right.
Defined.

End EndpointExamples.

(** ** Further facts, with their examples *)

Section FurtherExamples.

(** X8: the cleaned text has no whitespace at either end: it is empty, or its
    first and its last character are not whitespace. *)
Theorem clean_response_trimmed (content : text) :
  trimmed (fst (_clean_response content)) = true
  /\ strip (fst (_clean_response content)) = fst (_clean_response content).
Proof.
  assert (Ht : trimmed (fst (_clean_response content)) = true)
    by (unfold _clean_response; cbn [fst]; apply strip_trimmed).
  split; [exact Ht | now apply trimmed_strip].
Qed.

Lemma build_prompt_request_fields_witness :
  contains (str "
- Target audience: engineering managers")
    (_build_prompt (str "remote work tips") CASUAL SHORT true
       (Some (str "engineering managers")) (Some []) 3%nat) = true.
Proof.
  destruct (build_prompt_request_fields (str "remote work tips") CASUAL SHORT
              true (Some (str "engineering managers")) (Some []) 3%nat)
    as (_ & _ & Haudience & _).
  apply Haudience. reflexivity.
Defined.

End FurtherExamples.
